(** * Usage metering and quota enforcement of the voice-agent server

    A shallow embedding of the metered endpoints of [server.js] (the third
    document of [src/migrate-tts.js], lines 1087-2437) together with the
    relevant part of the relational schema ([src/database/schema.sql] and the
    [tts_usage] migration at the top of [src/migrate-tts.js]).

    Conventions.
    - A number is represented by its count of hundredths.  Every number the
      handlers compute is a multiple of 0.01 (sums of a [DECIMAL(10, 2)]
      column, integer limits and counts, costs rounded to two decimals) or
      [NaN]; a request or a token may carry any other number, whose count of
      hundredths is a rational.
    - A JavaScript object is a finite map from property names to values;
      reading an absent property yields [undefined].
    - A handler is a computation in a state-and-exception monad over the
      database, the console log and a plan of database faults; an [await]ed
      connection or query that rejects raises, and [try]/[catch] is
      explicit.  A handler that raises leaves its request without answer. *)

From Stdlib Require Import ZArith QArith Qround Lia Lqa List Bool Ascii String.
From stdpp Require Import base option list strings gmap fin_maps.

Local Open Scope Z_scope.

(** ** JavaScript values *)

(** A string value is its sequence of UTF-16 code units. *)
Definition JsString := list N.

(** An ASCII literal of the source as a sequence of code units. *)
Fixpoint lit (s : string) : JsString :=
  match s with
  | EmptyString => []
  | String a r => N_of_ascii a :: lit r
  end.

(** A number: [NaN], or [c] hundredths (the integer [n] is [Cent (100 * n)]). *)
Inductive Num :=
| NaN
| Cent (c : Z).

Definition int (n : Z) : Num := Cent (100 * n).

(** The values found in request bodies, token payloads and responses.  An
    object is an array ([iterable]) or not; its contents play no role in the
    metering.  [JFrac h] is the number of [h] hundredths, for a number that is
    not a whole number of hundredths (0.004 is [JFrac (4 # 10)]). *)
Inductive JsVal :=
| JUndefined
| JNull
| JBool (b : bool)
| JNum (x : Num)
| JStr (s : JsString)
| JObject (iterable : bool)
| JFrac (h : Q).

(** [a >= b] on numbers; any comparison with [NaN] is false. *)
Definition num_ge (a b : Num) : bool :=
  match a, b with
  | Cent x, Cent y => y <=? x
  | _, _ => false
  end.

Definition num_add (a b : Num) : Num :=
  match a, b with
  | Cent x, Cent y => Cent (x + y)
  | _, _ => NaN
  end.

(** Truthiness, as used by [!x] and [x || d]. *)
Definition truthy (v : JsVal) : bool :=
  match v with
  | JUndefined | JNull => false
  | JBool b => b
  | JNum NaN => false
  | JNum (Cent c) => negb (c =? 0)
  | JStr s => negb (Nat.eqb (length s) 0)
  | JObject _ => true
  | JFrac h => negb (Qeq_bool h 0)
  end.

(** The count of hundredths of a value whose [typeof] is ['number'] and that
    is not [NaN]. *)
Definition hundredths (v : JsVal) : option Q :=
  match v with
  | JNum (Cent c) => Some (inject_Z c)
  | JFrac h => Some h
  | _ => None
  end.

(** Property read [o.k]. *)
Definition prop (o : gmap string JsVal) (k : string) : JsVal :=
  default JUndefined (o !! k).

(** ** Strings: whitespace, [parseInt], [split(/\s+/)] *)

(** The code units matched by [\s] (white space and line terminators). *)
Definition is_js_space (c : N) : bool :=
  (((9 <=? c) && (c <=? 13)) || (c =? 32) || (c =? 160) || (c =? 5760)
   || ((8192 <=? c) && (c <=? 8202)) || (c =? 8232) || (c =? 8233)
   || (c =? 8239) || (c =? 8287) || (c =? 12288) || (c =? 65279))%N.

Fixpoint skip_space (s : JsString) : JsString :=
  match s with
  | c :: r => if is_js_space c then skip_space r else s
  | [] => []
  end.

(** The value of code unit [c] as a digit of the given radix, if it is one. *)
Definition digit_of (radix : Z) (c : N) : option Z :=
  let n := Z.of_N c in
  let v := if (48 <=? n) && (n <=? 57) then Some (n - 48)
           else if (97 <=? n) && (n <=? 122) then Some (n - 87)
           else if (65 <=? n) && (n <=? 90) then Some (n - 55)
           else None in
  match v with
  | Some d => if d <? radix then Some d else None
  | None => None
  end.

(** The longest prefix of digits, read in the given radix: [acc] is the value
    read so far, [None] while no digit has been seen. *)
Fixpoint read_digits (radix : Z) (acc : option Z) (s : JsString) : option Z :=
  match s with
  | c :: r =>
      match digit_of radix c with
      | Some d => read_digits radix (Some (radix * default 0 acc + d)) r
      | None => acc
      end
  | [] => acc
  end.

Definition read_radix (sign : Z) (s : JsString) : Num :=
  let '(radix, digits) :=
    match s with
    | 48%N :: 120%N :: r => (16, r)
    | 48%N :: 88%N :: r => (16, r)
    | _ => (10, s)
    end in
  match read_digits radix None digits with
  | Some n => int (sign * n)
  | None => NaN
  end.

(** [parseInt(s)] without a radix argument. *)
Definition parseInt (s : JsString) : Num :=
  match skip_space s with
  | 45%N :: r => read_radix (-1) r
  | 43%N :: r => read_radix 1 r
  | r => read_radix 1 r
  end.

(** [s.split(/\s+/)]: the pieces between maximal runs of white space.  A run at
    either end of the string leaves an empty piece there, and the empty string
    splits into one empty piece. [cur] is the piece being read and [in_run]
    tells whether the previous code unit was white space. *)
Fixpoint split_go (in_run : bool) (cur : JsString) (s : JsString) : list JsString :=
  match s with
  | [] => [cur]
  | c :: r =>
      if is_js_space c
      then (if in_run then split_go true cur r else cur :: split_go true [] r)
      else split_go false (cur ++ [c]) r
  end.

Definition split_ws (s : JsString) : list JsString := split_go false [] s.

(** ** Cost of a conversation turn (server.js, lines 1549-1551) *)

(** [Math.round]: the nearest integer, ties towards plus infinity. *)
Definition Math_round (q : Q) : Z := Qfloor (q + (1 # 2))%Q.

(** [assistantMessage.split(/\s+/).length] *)
Definition wordCount (assistantMessage : JsString) : Z :=
  Z.of_nat (length (split_ws assistantMessage)).

(** [Math.round((wordCount / 150) * 100) / 100], in hundredths of a minute.
    The quotient is taken exactly: [wordCount * 100 / 150] is at least 1/6 away
    from every tie of the rounding, so the rounded value is the one the
    floating-point evaluation produces. *)
Definition estimatedMinutes (wordCount : Z) : Z :=
  Math_round ((inject_Z wordCount / 150) * 100)%Q.

(** ** The relational store *)

(** A calendar day, as the number of days since some epoch; the source
    handles days as [YYYY-MM-DD] strings and [DATE] values, ordered alike. *)
Definition Day := Z.

Inductive Role := admin | student.

(** [users]: [id], [role], [minutes_limit INTEGER DEFAULT 120] (nullable). *)
Record UserRow := {
  u_id : Z;
  u_role : Role;
  u_minutes_limit : option Z
}.

(** [usage]: [id], [user_id NOT NULL], [date NOT NULL],
    [minutes_used DECIMAL(10, 2)] in hundredths of a minute. *)
Record UsageRow := {
  us_id : Z;
  us_user_id : Z;
  us_date : Day;
  us_minutes_used : Z
}.

(** [tts_usage]: [id], [user_id NOT NULL], and the day of [created_at]. *)
Record TtsRow := {
  tts_id : Z;
  tts_user_id : Z;
  tts_created_on : Day
}.

(** [api_configs] maps [config_key] (unique) to [config_value TEXT] (nullable). *)
Record Db := {
  users : list UserRow;
  usage : list UsageRow;
  tts_usage : list TtsRow;
  api_configs : gmap string (option JsString)
}.

(** The result of a statement or of a computation: a value, or an exception. *)
Inductive Res (A : Type) :=
| Ret (a : A)
| Raise (e : JsString).

Arguments Ret {A} a.
Arguments Raise {A} e.

(** A value bound to a parameter compared with an [INTEGER] column
    (node-postgres sends [undefined] and [null] as [NULL]). *)
Inductive SqlInt :=
| SqlNull
| SqlVal (n : Z)
| SqlBad.

(** Integer input from text, as the store reads a text parameter for an
    [INTEGER] column: blanks, an optional sign, digits, blanks. *)
Definition is_blank (c : N) : bool := (((9 <=? c) && (c <=? 13)) || (c =? 32))%N.

Fixpoint skip_blank (s : JsString) : JsString :=
  match s with
  | c :: r => if is_blank c then skip_blank r else s
  | [] => []
  end.

Fixpoint skip_digits (s : JsString) : JsString :=
  match s with
  | c :: r => match digit_of 10 c with Some _ => skip_digits r | None => s end
  | [] => []
  end.

Definition int_of_text (s : JsString) : SqlInt :=
  let '(sign, digits) :=
    match skip_blank s with
    | 45%N :: r => (-1, r)
    | 43%N :: r => (1, r)
    | r => (1, r)
    end in
  match read_digits 10 None digits, skip_blank (skip_digits digits) with
  | Some n, [] => SqlVal (sign * n)
  | _, _ => SqlBad
  end.

Definition sql_int (v : JsVal) : SqlInt :=
  match v with
  | JUndefined | JNull => SqlNull
  | JNum (Cent c) => if c mod 100 =? 0 then SqlVal (c / 100) else SqlBad
  | JNum NaN => SqlBad
  | JStr s => int_of_text s
  | JBool _ | JObject _ => SqlBad
  | JFrac h => if Qeq_bool (inject_Z (100 * Qfloor (h / 100))) h
               then SqlVal (Qfloor (h / 100)) else SqlBad
  end.

Definition bad_integer : JsString := lit "invalid input syntax for type integer".

(** A [WHERE col = $1] selection: [NULL] selects nothing, since the comparison
    is then unknown for every row. *)
Definition where_int {A : Type} (p : SqlInt) (pick : Z -> list A) : Res (list A) :=
  match p with
  | SqlVal n => Ret (pick n)
  | SqlNull => Ret []
  | SqlBad => Raise bad_integer
  end.

(** [user_id = uid AND date = day] *)
Definition on_day (uid : Z) (day : Day) (r : UsageRow) : bool :=
  (us_user_id r =? uid) && (us_date r =? day).

(** [user_id = uid AND date >= since] *)
Definition since_day (uid : Z) (since : Day) (r : UsageRow) : bool :=
  (us_user_id r =? uid) && (since <=? us_date r).

(** A value assigned to a [DECIMAL(10, 2)] column, in hundredths: it is
    rounded to two decimals, ties away from zero, and refused when the
    rounded value has more than eight digits before the point. *)
Definition round_half_away (h : Q) : Z :=
  if Qle_bool 0 h then Qfloor (h + (1 # 2))%Q else - Qfloor (- h + (1 # 2))%Q.

Definition numeric_overflow : JsString := lit "numeric field overflow".

Definition numeric_10_2 (h : Q) : Res Z :=
  let v := round_half_away h in
  if Z.abs v <? 10000000000 then Ret v else Raise numeric_overflow.

(** A row with [amount] more hundredths. *)
Definition bump (amount id : Z) (r : UsageRow) : UsageRow :=
  if us_id r =? id
  then {| us_id := us_id r; us_user_id := us_user_id r; us_date := us_date r;
          us_minutes_used := us_minutes_used r + amount |}
  else r.

Definition sum_minutes (rows : list UsageRow) : Z :=
  foldr (fun r acc => us_minutes_used r + acc) 0 rows.

(** [SELECT COALESCE(SUM(minutes_used), 0) as total FROM usage
     WHERE user_id = $1 AND date >= $2] *)
Definition select_total_since (p : SqlInt) (since : Day) (db : Db) : Res Z :=
  match where_int p (fun uid => List.filter (since_day uid since) (usage db)) with
  | Ret rows => Ret (sum_minutes rows)
  | Raise e => Raise e
  end.

(** [SELECT COALESCE(SUM(minutes_used), 0) as total FROM usage
     WHERE user_id = $1 AND date = $2] *)
Definition select_total_on (p : SqlInt) (day : Day) (db : Db) : Res Z :=
  match where_int p (fun uid => List.filter (on_day uid day) (usage db)) with
  | Ret rows => Ret (sum_minutes rows)
  | Raise e => Raise e
  end.

(** [SELECT minutes_limit FROM users WHERE id = $1] *)
Definition select_minutes_limit (p : SqlInt) (db : Db) : Res (list (option Z)) :=
  where_int p (fun uid =>
    map u_minutes_limit (List.filter (fun u => u_id u =? uid) (users db))).

(** [SELECT id, minutes_used FROM usage WHERE user_id = $1 AND date = $2] *)
Definition select_existing (p : SqlInt) (day : Day) (db : Db) : Res (list UsageRow) :=
  where_int p (fun uid => List.filter (on_day uid day) (usage db)).

Definition not_null_violation : JsString :=
  lit "null value in column user_id violates not-null constraint".
Definition unique_violation : JsString :=
  lit "duplicate key value violates unique constraint unique_user_date".
Definition check_violation : JsString :=
  lit "new row violates check constraint positive_minutes".

Definition with_usage (db : Db) (rows : list UsageRow) : Db :=
  {| users := users db; usage := rows; tts_usage := tts_usage db;
     api_configs := api_configs db |}.

Definition with_tts_usage (db : Db) (rows : list TtsRow) : Db :=
  {| users := users db; usage := usage db; tts_usage := rows;
     api_configs := api_configs db |}.

(** [SET minutes_used = minutes_used + $1] on one row: the sum is exact, its
    assignment to the column rounds it or refuses it, and
    [CONSTRAINT positive_minutes CHECK (minutes_used >= 0)] is checked on the
    value assigned. *)
Definition add_minutes (amount : Q) (r : UsageRow) : Res UsageRow :=
  match numeric_10_2 (inject_Z (us_minutes_used r) + amount) with
  | Ret v =>
      if 0 <=? v
      then Ret {| us_id := us_id r; us_user_id := us_user_id r; us_date := us_date r;
                  us_minutes_used := v |}
      else Raise check_violation
  | Raise e => Raise e
  end.

Fixpoint update_where_id (amount : Q) (id : Z) (rows : list UsageRow)
  : Res (list UsageRow) :=
  match rows with
  | [] => Ret []
  | r :: rest =>
      match (if us_id r =? id then add_minutes amount r else Ret r) with
      | Ret r' =>
          match update_where_id amount id rest with
          | Ret rest' => Ret (r' :: rest')
          | Raise e => Raise e
          end
      | Raise e => Raise e
      end
  end.

(** [UPDATE usage SET minutes_used = minutes_used + $1 WHERE id = $2];
    [amount] is the parameter [$1], in hundredths. *)
Definition update_add_minutes (amount : Q) (id : Z) (db : Db) : Res Db :=
  match update_where_id amount id (usage db) with
  | Ret rows => Ret (with_usage db rows)
  | Raise e => Raise e
  end.

Definition foreign_key_violation : JsString :=
  lit "insert or update on table violates foreign key constraint".

(** [REFERENCES users(id)] *)
Definition references_user (uid : Z) (db : Db) : bool :=
  existsb (fun u => u_id u =? uid) (users db).

(** The next value of a [SERIAL] key: above every key in use. *)
Definition fresh (ids : list Z) : Z := 1 + foldr Z.max 0 ids.

(** [INSERT INTO usage (user_id, date, minutes_used) VALUES ($1, $2, $3)];
    [amount] is the parameter [$3], in hundredths.  The value is assigned to
    the [DECIMAL(10, 2)] column, then the row is checked against [NOT NULL],
    [positive_minutes], [CONSTRAINT unique_user_date UNIQUE(user_id, date)]
    and [user_id REFERENCES users(id)]. *)
Definition insert_usage (p : SqlInt) (day : Day) (amount : Q) (db : Db) : Res Db :=
  match p, numeric_10_2 amount with
  | SqlBad, _ => Raise bad_integer
  | _, Raise e => Raise e
  | SqlNull, _ => Raise not_null_violation
  | SqlVal uid, Ret v =>
      if negb (0 <=? v) then Raise check_violation
      else if existsb (on_day uid day) (usage db)
      then Raise unique_violation
      else if negb (references_user uid db) then Raise foreign_key_violation
      else Ret (with_usage db
                  (usage db ++ [{| us_id := fresh (map us_id (usage db));
                                   us_user_id := uid; us_date := day;
                                   us_minutes_used := v |}]))
  end.

(** [SELECT config_value FROM api_configs WHERE config_key = 'tts_daily_limit'] *)
Definition select_tts_daily_limit (db : Db) : list (option JsString) :=
  match api_configs db !! "tts_daily_limit" with
  | Some v => [v]
  | None => []
  end.

(** [SELECT COUNT( * ) as count FROM tts_usage
     WHERE user_id = $1 AND DATE(created_at) = $2] *)
Definition select_tts_count (p : SqlInt) (day : Day) (db : Db) : Res Z :=
  match where_int p (fun uid =>
          List.filter (fun r => (tts_user_id r =? uid) && (tts_created_on r =? day))
                      (tts_usage db)) with
  | Ret rows => Ret (Z.of_nat (length rows))
  | Raise e => Raise e
  end.

(** [INSERT INTO tts_usage (user_id, created_at) VALUES ($1, NOW())], with
    [user_id INTEGER NOT NULL REFERENCES users(id)]; [day] is the day of
    [NOW()]. *)
Definition insert_tts_usage (p : SqlInt) (day : Day) (db : Db) : Res Db :=
  match p with
  | SqlBad => Raise bad_integer
  | SqlNull => Raise not_null_violation
  | SqlVal uid =>
      if negb (references_user uid db) then Raise foreign_key_violation
      else Ret (with_tts_usage db
                  (tts_usage db ++ [{| tts_id := fresh (map tts_id (tts_usage db));
                                       tts_user_id := uid; tts_created_on := day |}]))
  end.

(** ** Handlers as computations *)

(** The world a handler runs in: the store, the console log, and the plan of
    faults of the store: the head tells whether the next query rejects (lost
    connection, timeout); an exhausted plan means no further fault. *)
Record World := {
  w_db : Db;
  w_faults : list bool;
  w_log : list JsString
}.

Definition M (A : Type) : Type := World -> Res A * World.

Definition ret {A : Type} (a : A) : M A := fun w => (Ret a, w).

Definition raise {A : Type} (e : JsString) : M A := fun w => (Raise e, w).

Definition bind {A B : Type} (m : M A) (k : A -> M B) : M B :=
  fun w => match m w with
           | (Ret a, w') => k a w'
           | (Raise e, w') => (Raise e, w')
           end.

Notation "'do' x <- m ; k" := (bind m (fun x => k))
  (at level 10, x name, m at level 100, k at level 200, only parsing).
Notation "'run' m ; k" := (bind m (fun _ => k))
  (at level 10, m at level 100, k at level 200, only parsing).

(** [try { m } catch (err) { h err }] *)
Definition try_catch {A : Type} (m : M A) (h : JsString -> M A) : M A :=
  fun w => match m w with
           | (Ret a, w') => (Ret a, w')
           | (Raise e, w') => h e w'
           end.

(** [console.error(label, ...)] *)
Definition console_error (label : JsString) : M unit :=
  fun w => (Ret tt, {| w_db := w_db w; w_faults := w_faults w;
                       w_log := w_log w ++ [label] |}).

Definition query_fault : JsString := lit "Connection terminated unexpectedly".

(** [await client.query(...)] for a statement that only reads. *)
Definition read {A : Type} (stmt : Db -> Res A) : M A :=
  fun w =>
    let w' := {| w_db := w_db w; w_faults := tail (w_faults w); w_log := w_log w |} in
    match w_faults w with
    | true :: _ => (Raise query_fault, w')
    | _ => (stmt (w_db w), w')
    end.

(** [await pool.connect()]: it takes its turn in the plan of faults. *)
Definition connect : M unit := read (fun _ => Ret tt).

(** [await client.query(...)] for a statement that writes; a statement that
    fails leaves the store as it was. *)
Definition write (stmt : Db -> Res Db) : M unit :=
  fun w =>
    let w' := {| w_db := w_db w; w_faults := tail (w_faults w); w_log := w_log w |} in
    match w_faults w with
    | true :: _ => (Raise query_fault, w')
    | _ => match stmt (w_db w) with
           | Ret db' => (Ret tt, {| w_db := db'; w_faults := tail (w_faults w);
                                    w_log := w_log w |})
           | Raise e => (Raise e, w')
           end
    end.

(** ** Requests, tokens and responses *)

(** A bearer token: a string that is no token of ours, or a payload signed
    with a secret. *)
Inductive Credential :=
| Malformed
| Signed (payload : gmap string JsVal) (secret : JsString).

Record Request := {
  authorization : option Credential;
  req_body : gmap string JsVal
}.

Record Response := {
  status : Z;
  body : gmap string JsVal
}.

(** What the process reads from its environment and its clock. *)
Record Env := {
  jwt_secret : JsString;
  now : Z;
  today : Day;
  firstDayOfMonth : Day;
  google_api_key : bool
}.

(** [JSON.stringify] of an object literal: a property whose value is
    [undefined] is dropped, and [NaN] is written [null]. *)
Definition json_field (kv : string * JsVal) : option (string * JsVal) :=
  match kv.2 with
  | JUndefined => None
  | JNum NaN => Some (kv.1, JNull)
  | v => Some (kv.1, v)
  end.

(** [res.status(code).json({...})] *)
Definition res_json (code : Z) (fields : list (string * JsVal)) : Response :=
  {| status := code; body := list_to_map (omap json_field fields) |}.

Definition failure (code : Z) (message : string) : Response :=
  res_json code [("error", JStr (lit message))].

(** [jwt.sign(payload, secret, { expiresIn: '30d' })] *)
Definition jwt_sign (payload : gmap string JsVal) (secret : JsString) (now : Z)
  : Credential :=
  Signed (<["iat" := JNum (int now)]> (<["exp" := JNum (int (now + 2592000))]> payload))
         secret.

(** [jwt.verify(token, secret)]: the payload, or [None] when it throws. *)
Definition jwt_verify (token : Credential) (secret : JsString) (now : Z)
  : option (gmap string JsVal) :=
  match token with
  | Malformed => None
  | Signed payload s =>
      if bool_decide (s = secret)
      then match payload !! "exp" with
           | None => Some payload
           | Some (JNum exp) => if num_ge (int now) exp then None else Some payload
           | Some (JFrac exp) =>
               if Qle_bool exp (inject_Z (100 * now)) then None else Some payload
           | Some _ => None
           end
      else None
  end.

(** The token issued by [/api/auth/login] and [/api/auth/register]
    (lines 1236-1240 and 1291-1295):
    [jwt.sign({ userId: user.id, email: user.email, role: user.role }, ...)]. *)
Definition role_name (r : Role) : JsString :=
  match r with
  | admin => lit "admin"
  | student => lit "student"
  end.

Definition issue_token (env : Env) (user : UserRow) (email : JsString) : Credential :=
  jwt_sign {[ "userId" := JNum (int (u_id user));
              "email" := JStr email;
              "role" := JStr (role_name (u_role user)) ]}
           (jwt_secret env) (now env).

(** The allowance given at registration (line 1222):
    [role === 'admin' ? 999999 : 120]. *)
Definition registration_limit (r : Role) : Z :=
  match r with
  | admin => 999999
  | student => 120
  end.

(** The [authenticate] middleware (lines 1170-1185); [next] receives
    [req.user]. *)
Definition authenticate (env : Env) (req : Request)
    (next : gmap string JsVal -> M Response) : M Response :=
  match authorization req with
  | None => ret (failure 401 "Token mancante")
  | Some token =>
      match jwt_verify token (jwt_secret env) (now env) with
      | Some decoded => next decoded
      | None =>
          run console_error (lit "JWT verification error:");
          ret (failure 401 "Token non valido")
      end
  end.

(** ** The minutes ledger: [/api/user/usage] and [/api/chat] *)

(** The accumulate-or-create step, written twice in the source: in
    [POST /api/user/usage] (lines 1396-1411) and in [POST /api/chat]
    (lines 1553-1569).  [userId] is [req.user.userId]; [amount] is the number
    passed to the store, in hundredths. *)
Definition recordMinutes (userId : JsVal) (day : Day) (amount : Q) : M unit :=
  do existing <- read (select_existing (sql_int userId) day);
  match existing with
  | row :: _ => write (update_add_minutes amount (us_id row))
  | [] => write (insert_usage (sql_int userId) day amount)
  end.

(** [POST /api/user/usage] (lines 1385-1420).  The body comes from the JSON
    parser, which produces no [NaN]. *)
Definition post_user_usage (env : Env) (req : Request) : M Response :=
  authenticate env req (fun user =>
    let minutes := prop (req_body req) "minutes" in
    match hundredths minutes with
    | Some amount =>
        if Qle_bool amount 0 then ret (failure 400 "Minuti non validi")
        else
          run connect;
          try_catch
            (run recordMinutes (prop user "userId") (today env) amount;
             ret (res_json 200 [("message", JStr (lit "Utilizzo registrato"));
                                ("minutes_added", minutes)]))
            (fun _ =>
               run console_error (lit "Add usage error:");
               ret (failure 500 "Errore registrazione utilizzo"))
    | None => ret (failure 400 "Minuti non validi")
    end).

(** [userLimits.rows[0]?.minutes_limit || 120]: a missing row, a [NULL]
    column and the value 0 are all falsy. *)
Definition minutes_limit_or_default (rows : list (option Z)) : Z :=
  match rows with
  | Some limit :: _ => if limit =? 0 then 120 else limit
  | _ => 120
  end.

(** [GET /api/user/usage] (lines 1345-1383). *)
Definition get_user_usage (env : Env) (req : Request) : M Response :=
  authenticate env req (fun user =>
    run connect;
    try_catch
      (let userId := sql_int (prop user "userId") in
       do dailyMinutes <- read (select_total_on userId (today env));
       do monthlyMinutes <- read (select_total_since userId (firstDayOfMonth env));
       do userLimits <- read (select_minutes_limit userId);
       let minutesLimit := minutes_limit_or_default userLimits in
       ret (res_json 200
              [("daily_minutes", JNum (Cent dailyMinutes));
               ("monthly_minutes", JNum (Cent monthlyMinutes));
               ("minutes_limit", JNum (int minutesLimit));
               ("remaining_minutes",
                JNum (Cent (Z.max 0 (100 * minutesLimit - monthlyMinutes))))]))
      (fun _ =>
         run console_error (lit "Get usage error:");
         ret (failure 500 "Errore server"))).

(** The outcome of the call to the conversational provider: [fetch] rejects,
    or answers with a status outside 200-299 and a body text, or answers in
    that range; then [text] is [data.content[0].text] when the body has that
    shape and it is a string. *)
Inductive Completion :=
| NetworkError
| NotOk (code : Z) (errorData : JsString)
| Answer (text : option JsString).

Definition type_error : JsString := lit "TypeError".
Definition fetch_failed : JsString := lit "fetch failed".

(** A query that only reads and whose rows do not reach the metering: the
    student level (lines 1449-1452) and the learning materials
    (lines 1471-1480). *)
Definition select_student_level (p : SqlInt) (db : Db) : Res unit :=
  match p with
  | SqlBad => Raise bad_integer
  | _ => Ret tt
  end.

Definition select_materials (db : Db) : Res unit := Ret tt.

(** The outcome of a pre-flight check. *)
Record Admission := {
  admitted : bool;
  used : Num;
  limit : Num
}.

(** The pre-flight check of [POST /api/chat] (lines 1436-1458): the three
    queries of the [Promise.all], then [monthlyMinutes >= minutesLimit].
    [userId] is [req.user.userId]. *)
Definition admitConversation (env : Env) (userId : JsVal) : M Admission :=
  do monthlyUsage <- read (select_total_since (sql_int userId) (firstDayOfMonth env));
  do userLimits <- read (select_minutes_limit (sql_int userId));
  run read (select_student_level (sql_int userId));
  let minutesLimit := int (minutes_limit_or_default userLimits) in
  let monthlyMinutes := Cent monthlyUsage in
  ret {| admitted := negb (num_ge monthlyMinutes minutesLimit);
         used := monthlyMinutes;
         limit := minutesLimit |}.

(** [POST /api/chat] (lines 1426-1583).  The system prompt is built from the
    level and the materials and plays no role afterwards; the fields [level]
    and [materials_used] of the success response are left out. *)
Definition post_chat (env : Env) (provider : Completion) (req : Request) : M Response :=
  authenticate env req (fun user =>
    if negb (truthy (prop (req_body req) "message"))
    then ret (failure 400 "Messaggio richiesto")
    else
      run connect;
      try_catch
        (let userId := prop user "userId" in
         do check <- admitConversation env userId;
         if negb (admitted check)
         then ret (res_json 429 [("error", JStr (lit "Limite mensile raggiunto"));
                                 ("minutes_used", JNum (used check));
                                 ("minutes_limit", JNum (limit check))])
         else
           run read select_materials;
           match prop (req_body req) "conversation_history" with
           | JUndefined | JStr _ | JObject true =>
               match provider with
               | NetworkError => raise fetch_failed
               | NotOk code errorData =>
                   run console_error (lit "Anthropic API error:");
                   ret (res_json code [("error", JStr (lit "Errore API Anthropic"));
                                       ("details", JStr errorData)])
               | Answer None => raise type_error
               | Answer (Some assistantMessage) =>
                   let estimated := estimatedMinutes (wordCount assistantMessage) in
                   run recordMinutes userId (today env) (inject_Z estimated);
                   ret (res_json 200 [("response", JStr assistantMessage);
                                      ("minutes_used", JNum (Cent estimated))])
               end
           | _ => raise type_error
           end)
        (fun _ =>
           run console_error (lit "Chat error:");
           ret (failure 500 "Errore durante la chat"))).

(** ** The TTS ledger: [/api/user/tts-usage] and [/api/tts] *)

(** [settingsResult.rows.length > 0
       ? parseInt(settingsResult.rows[0].config_value) : 15] *)
Definition tts_daily_limit (rows : list (option JsString)) : Num :=
  match rows with
  | Some config_value :: _ => parseInt config_value
  | None :: _ => NaN
  | [] => int 15
  end.

Definition num_sub (a b : Num) : Num :=
  match a, b with
  | Cent x, Cent y => Cent (x - y)
  | _, _ => NaN
  end.

(** [Math.max(0, x)] *)
Definition max0 (x : Num) : Num :=
  match x with
  | Cent c => Cent (Z.max 0 c)
  | NaN => NaN
  end.

Definition num_pos (x : Num) : bool :=
  match x with
  | Cent c => 0 <? c
  | NaN => false
  end.

(** [GET /api/user/tts-usage] (lines 1655-1692). *)
Definition get_tts_usage (env : Env) (req : Request) : M Response :=
  authenticate env req (fun user =>
    run connect;
    try_catch
      (let userId := prop user "id" in
       do settingsResult <- read (fun db => Ret (select_tts_daily_limit db));
       let dailyLimit := tts_daily_limit settingsResult in
       do count <- read (select_tts_count (sql_int userId) (today env));
       let usedToday := int count in
       let remaining := max0 (num_sub dailyLimit usedToday) in
       ret (res_json 200 [("dailyLimit", JNum dailyLimit);
                          ("usedToday", JNum usedToday);
                          ("remaining", JNum remaining);
                          ("canUsePremium", JBool (num_pos remaining))]))
      (fun _ =>
         run console_error (lit "Get TTS usage error:");
         ret (failure 500 "Failed to get TTS usage"))).

(** [trackTTSUsage] (lines 1695-1704); the row is stamped by the store, on
    the day the handler calls [today]. *)
Definition trackTTSUsage (env : Env) (userId : JsVal) : M unit :=
  try_catch
    (write (insert_tts_usage (sql_int userId) (today env)))
    (fun _ => console_error (lit "Track TTS usage error:")).

(** The pre-flight check of [POST /api/tts] (lines 1722-1743): the limit, the
    count of the day, then [usedToday >= dailyLimit].  [userId] is
    [req.user.id]. *)
Definition admitTTS (env : Env) (userId : JsVal) : M Admission :=
  do settingsResult <- read (fun db => Ret (select_tts_daily_limit db));
  let dailyLimit := tts_daily_limit settingsResult in
  do count <- read (select_tts_count (sql_int userId) (today env));
  let usedToday := int count in
  ret {| admitted := negb (num_ge usedToday dailyLimit);
         used := usedToday;
         limit := dailyLimit |}.

(** The outcome of the call to the speech provider: [fetch] rejects, or
    answers outside 200-299 with a body that is JSON or is not, or answers
    in that range: with a body that is not JSON ([Audio None]), with the JSON
    body [null] ([AudioNull]), or with another JSON value, [data], given by
    its properties (a number, a string or a boolean has none that the handler
    reads). *)
Inductive Synthesis :=
| SynthNetworkError
| SynthNotOk (json_body : bool)
| Audio (data : option (gmap string JsVal))
| AudioNull.

Definition synthesis_error : JsString := lit "TTS API error".
Definition no_api_key : JsString := lit "Google API Key not configured".

(** [POST /api/tts] (lines 1711-1844).  The choice of the voice reads the
    request only and cannot throw; the field [voiceUsed] of the success
    response is left out. *)
Definition post_tts (env : Env) (provider : Synthesis) (req : Request) : M Response :=
  authenticate env req (fun user =>
    run connect;
    try_catch
      (let text := prop (req_body req) "text" in
       let userId := prop user "id" in
       if negb (truthy text) then ret (failure 400 "Text is required")
       else
         do check <- admitTTS env userId;
         if negb (admitted check)
         then ret (res_json 429 [("error", JStr (lit "Daily premium TTS limit reached"));
                                 ("usedToday", JNum (used check));
                                 ("dailyLimit", JNum (limit check));
                                 ("fallbackToLocal", JBool true)])
         else
           match text with
           | JStr _ =>
               if negb (google_api_key env) then raise no_api_key
               else
                 match provider with
                 | SynthNetworkError => raise fetch_failed
                 | SynthNotOk json_body =>
                     if json_body
                     then run console_error (lit "TTS API error:");
                          raise synthesis_error
                     else raise type_error
                 | Audio None => raise type_error
                 | Audio (Some data) =>
                     run trackTTSUsage env userId;
                     ret (res_json 200 [("audioContent", prop data "audioContent");
                                        ("usedToday", JNum (num_add (used check) (int 1)));
                                        ("dailyLimit", JNum (limit check))])
                 | AudioNull =>
                     run trackTTSUsage env userId;
                     raise type_error
                 end
           | _ => raise type_error
           end)
      (fun _ =>
         run console_error (lit "TTS error:");
         ret (res_json 500 [("error", JStr (lit "Text-to-speech failed"));
                            ("fallbackToLocal", JBool true)]))).

(** ** Requests served concurrently *)

(** The server is one event loop: the code between two [await]s runs without
    interruption, and each awaited query is one atomic statement at the
    store.  A request that runs the accumulate-or-create step is therefore in
    one of three places: before its [SELECT], between its [SELECT] and its
    [UPDATE] or [INSERT] (holding the rows it has read), or finished. *)
Inductive Recorder :=
| Selecting (userId : JsVal) (day : Day) (amount : Q)
| Writing (existing : list UsageRow) (userId : JsVal) (day : Day) (amount : Q)
| Finished (outcome : Res unit).

Definition recorder_step (r : Recorder) (db : Db) : Recorder * Db :=
  match r with
  | Selecting userId day amount =>
      match select_existing (sql_int userId) day db with
      | Ret rows => (Writing rows userId day amount, db)
      | Raise e => (Finished (Raise e), db)
      end
  | Writing existing userId day amount =>
      let statement :=
        match existing with
        | row :: _ => update_add_minutes amount (us_id row)
        | [] => insert_usage (sql_int userId) day amount
        end in
      match statement db with
      | Ret db' => (Finished (Ret tt), db')
      | Raise e => (Finished (Raise e), db)
      end
  | Finished _ => (r, db)
  end.

(** A schedule names, step by step, the request that the store serves next. *)
Fixpoint interleave (schedule : list nat) (rs : list Recorder) (db : Db)
  : list Recorder * Db :=
  match schedule with
  | [] => (rs, db)
  | i :: rest =>
      match rs !! i with
      | Some r =>
          let '(r', db') := recorder_step r db in
          interleave rest (<[i := r']> rs) db'
      | None => interleave rest rs db
      end
  end.

(** The sequential run of a list of recordings. *)
Fixpoint record_all (userId : JsVal) (day : Day) (amounts : list Q) : M unit :=
  match amounts with
  | [] => ret tt
  | amount :: rest =>
      run recordMinutes userId day amount;
      record_all userId day rest
  end.

(** The value stored for a user and a day: the sum over the rows of that
    user and day (there is at most one under [unique_user_date]). *)
Definition stored (uid : Z) (day : Day) (db : Db) : Z :=
  sum_minutes (List.filter (on_day uid day) (usage db)).

(** The columns of [unique_user_date]. *)
Definition user_date (r : UsageRow) : Z * Day := (us_user_id r, us_date r).

(** The integrity of [usage] that the schema maintains: [id] is a key,
    [minutes_used] is not negative ([positive_minutes]) and there is one row
    at most for a user and a day ([unique_user_date]). *)
Definition usage_ok (db : Db) : Prop :=
  NoDup (map us_id (usage db))
  /\ Forall (fun r => 0 <= us_minutes_used r) (usage db)
  /\ NoDup (map user_date (usage db)).

(** A world without store faults. *)
Definition calm (db : Db) (log : list JsString) : World :=
  {| w_db := db; w_faults := []; w_log := log |}.

(** ** Notions used in the statements *)

(** The row that the first recording of a day inserts. *)
Definition created (uid : Z) (day : Day) (amount : Z) (db : Db) : UsageRow :=
  {| us_id := fresh (map us_id (usage db)); us_user_id := uid; us_date := day;
     us_minutes_used := amount |}.

(** What one recording does to the table, by cases on the rows it selects. *)
Definition recorded (uid : Z) (day : Day) (amount : Z) (db : Db) : list UsageRow :=
  match List.filter (on_day uid day) (usage db) with
  | row :: _ => map (bump amount (us_id row)) (usage db)
  | [] => usage db ++ [created uid day amount db]
  end.

(** The primitive that the specification asks of the store (its sections 5
    and 6, [upsertAddMinutes]): insert or increment in one statement.  It
    follows the words of the specification and is not in the source, which
    records in two statements; it is here to be compared with them. *)
Definition upsertAddMinutes (uid : Z) (day : Day) (amount : Z) (db : Db) : Db :=
  with_usage db (recorded uid day amount db).

(** Requests that record through [upsertAddMinutes]: each one is a single
    step, pending ([Some amount]) or served ([None]). *)
Fixpoint interleave_upserts (uid : Z) (day : Day) (schedule : list nat)
    (pending : list (option Z)) (db : Db) : list (option Z) * Db :=
  match schedule with
  | [] => (pending, db)
  | i :: rest =>
      match pending !! i with
      | Some (Some amount) =>
          interleave_upserts uid day rest (<[i := None]> pending)
                             (upsertAddMinutes uid day amount db)
      | _ => interleave_upserts uid day rest pending db
      end
  end.

(** What the pending requests have yet to record. *)
Definition outstanding (pending : list (option Z)) : Z :=
  foldr (fun p acc => default 0 p + acc) 0 pending.

(** The sum of the amounts of a sequence of recordings. *)
Definition total (amounts : list Z) : Z := foldr Z.add 0 amounts.

(** [v] is [h] rounded to a whole number, ties up. *)
Definition nearest (v : Z) (h : Q) : Prop :=
  (inject_Z v - (1 # 2) <= h)%Q /\ (h < inject_Z v + (1 # 2))%Q.

(** The words of a text as the specification counts them, the
    whitespace-separated tokens: the maximal runs of code units that are not
    white space.  [after_space] tells whether the previous code unit was
    white space (or the text starts here).  This follows the words of the
    specification and is not in the source; it is here to be compared with
    [wordCount]. *)
Fixpoint tokens_from (after_space : bool) (s : JsString) : Z :=
  match s with
  | [] => 0
  | c :: r =>
      if is_js_space c then tokens_from true r
      else (if after_space then 1 else 0) + tokens_from false r
  end.

Definition tokens (text : JsString) : Z := tokens_from true text.





(** [keeps_db m]: [m] never changes the store.  [raise_keeps m]: a run of [m]
    that raises has not changed the store.  [clean m], for a handler: a run
    that changes the store answers with status 200. *)
Definition keeps_db {A : Type} (m : M A) : Prop :=
  forall w, w_db (m w).2 = w_db w.

Definition raise_keeps {A : Type} (m : M A) : Prop :=
  forall w e w', m w = (Raise e, w') -> w_db w' = w_db w.


(** [req.user], when the middleware lets the request through. *)
Definition authenticated (env : Env) (req : Request) (user : gmap string JsVal) : Prop :=
  exists token, authorization req = Some token
    /\ jwt_verify token (jwt_secret env) (now env) = Some user.

(** A computation that always returns a value. *)
Definition returns {A : Type} (m : M A) : Prop :=
  forall w, exists a w', m w = (Ret a, w').

(** The two denial responses (lines 1459-1463 and 1744-1749). *)
Definition monthly_limit_reached (check : Admission) : Response :=
  res_json 429 [("error", JStr (lit "Limite mensile raggiunto"));
                ("minutes_used", JNum (used check));
                ("minutes_limit", JNum (limit check))].

Definition daily_limit_reached (check : Admission) : Response :=
  res_json 429 [("error", JStr (lit "Daily premium TTS limit reached"));
                ("usedToday", JNum (used check));
                ("dailyLimit", JNum (limit check));
                ("fallbackToLocal", JBool true)].

(** The response of the [catch] of [POST /api/tts] (lines 1837-1840). *)
Definition tts_failed : Response :=
  res_json 500 [("error", JStr (lit "Text-to-speech failed"));
                ("fallbackToLocal", JBool true)].

(** What a run answers, if it answers. *)
Definition answer (outcome : Res Response * World) : option Response :=
  match outcome.1 with
  | Ret resp => Some resp
  | Raise _ => None
  end.

(** The world that a run leaves behind. *)
Definition after (outcome : Res Response * World) : World := outcome.2.

(** The same request served [n] times in a row: the statuses answered, and
    the world left behind. *)
Fixpoint serve (handler : M Response) (n : nat) (w : World)
  : list (option Z) * World :=
  match n with
  | O => ([], w)
  | S k =>
      let outcome := handler w in
      let '(statuses, w') := serve handler k (after outcome) in
      ((status <$> answer outcome) :: statuses, w')
  end.

(** ** Scenarios *)

Module Scenario.

Definition env : Env :=
  {| jwt_secret := lit "your-secret-key-change-in-production";
     now := 1700000000; today := 19675; firstDayOfMonth := 19662;
     google_api_key := true |}.

Definition root : UserRow :=
  {| u_id := 1; u_role := admin; u_minutes_limit := Some (registration_limit admin) |}.

Definition anna : UserRow :=
  {| u_id := 7; u_role := student; u_minutes_limit := Some 120 |}.

Definition blocked : UserRow :=
  {| u_id := 8; u_role := student; u_minutes_limit := Some 0 |}.

Definition row (id uid : Z) (day : Day) (minutes : Z) : UsageRow :=
  {| us_id := id; us_user_id := uid; us_date := day; us_minutes_used := minutes |}.

Definition call (id uid : Z) : TtsRow :=
  {| tts_id := id; tts_user_id := uid; tts_created_on := today env |}.

Definition store (rows : list UsageRow) (calls : list TtsRow) : Db :=
  {| users := [root; anna; blocked]; usage := rows; tts_usage := calls;
     api_configs := ∅ |}.

Definition request (token : Credential) (fields : list (string * JsVal)) : Request :=
  {| authorization := Some token; req_body := list_to_map fields |}.

Definition token_of (u : UserRow) : Credential :=
  issue_token env u (lit "user@example.com").

Definition hello : JsString := lit "Hello there, how are you today?".

(** [n] premium calls made today by user [uid]. *)
Definition calls_today (uid : Z) (n : nat) : list TtsRow :=
  map (fun i => call (Z.of_nat i) uid) (seq 1 n).

(** A text of [n + 1] words. *)
Definition words (n : nat) : JsString :=
  concat (repeat (lit "word ") n) ++ lit "word".

End Scenario.

(** ** Administration: settings, users, scripts *)

(** The [requireAdmin] middleware (lines 1187-1192):
    [req.user.role !== 'admin'] answers 403. *)
Definition requireAdmin (user : gmap string JsVal) (next : M Response) : M Response :=
  match prop user "role" with
  | JStr role =>
      if bool_decide (role = lit "admin") then next
      else ret (failure 403 "Accesso negato: admin richiesto")
  | _ => ret (failure 403 "Accesso negato: admin richiesto")
  end.

Definition with_api_configs (db : Db) (configs : gmap string (option JsString)) : Db :=
  {| users := users db; usage := usage db; tts_usage := tts_usage db;
     api_configs := configs |}.

Definition with_users (db : Db) (rows : list UserRow) : Db :=
  {| users := rows; usage := usage db; tts_usage := tts_usage db;
     api_configs := api_configs db |}.

Definition duplicate_config : JsString :=
  lit "duplicate key value violates unique constraint api_configs_config_key_key".

(** [INSERT INTO api_configs (config_key, config_value, description)
     VALUES ('tts_daily_limit', '15', ...)], under [config_key UNIQUE]. *)
Definition insert_tts_daily_limit (db : Db) : Res Db :=
  match api_configs db !! "tts_daily_limit" with
  | Some _ => Raise duplicate_config
  | None => Ret (with_api_configs db (<["tts_daily_limit" := Some (lit "15")]> (api_configs db)))
  end.

(** The same insertion with [ON CONFLICT (config_key) DO NOTHING]. *)
Definition insert_tts_daily_limit_if_absent (db : Db) : Res Db :=
  match api_configs db !! "tts_daily_limit" with
  | Some _ => Ret db
  | None => Ret (with_api_configs db (<["tts_daily_limit" := Some (lit "15")]> (api_configs db)))
  end.

(** [parseInt(result.rows[0].config_value)]; [parseInt(null)] is [NaN]. *)
Definition parse_config (config_value : option JsString) : Num :=
  match config_value with
  | Some text => parseInt text
  | None => NaN
  end.

(** [GET /api/admin/tts-settings] (lines 1591-1621).  The field [description]
    of the response is left out. *)
Definition get_tts_settings (env : Env) (req : Request) : M Response :=
  authenticate env req (fun user =>
    requireAdmin user
      (run connect;
       try_catch
         (do result <- read (fun db => Ret (select_tts_daily_limit db));
          do result <-
            match result with
            | [] =>
                run write insert_tts_daily_limit;
                read (fun db => Ret (select_tts_daily_limit db))
            | _ => ret result
            end;
          match result with
          | row :: _ => ret (res_json 200 [("dailyLimit", JNum (parse_config row))])
          | [] => raise type_error
          end)
         (fun _ =>
            run console_error (lit "Get TTS settings error:");
            ret (failure 500 "Failed to get TTS settings")))).

(** [console.log(label, ...)]: the same console. *)
Definition console_log (label : JsString) : M unit := console_error label.

(** A statement of data definition guarded by [IF NOT EXISTS], on a store
    that has the table and the index. *)
Definition if_not_exists (db : Db) : Res Db := Ret db.

(** [migrate] ([src/migrate-tts.js], lines 13-50); the connection is
    awaited before the [try]. *)
Definition migrate : M unit :=
  run connect;
  try_catch
    (run console_log (lit "Creating tts_usage table...");
     run write if_not_exists;
     run write if_not_exists;
     run write insert_tts_daily_limit_if_absent;
     run console_log (lit "Migration completed successfully!");
     run read (fun db => Ret (select_tts_daily_limit db));
     console_log (lit "TTS Limit:"))
    (fun _ => console_error (lit "Migration failed:")).

(** [DELETE FROM usage WHERE date < $1] *)
Definition delete_usage_before (first : Day) (db : Db) : Res Db :=
  Ret (with_usage db (List.filter (fun r => negb (us_date r <? first)) (usage db))).

(** [resetMonthlyUsage] of the helper script ([src/update-database.js],
    lines 322-337). *)
Definition resetMonthlyUsage (env : Env) : M unit :=
  try_catch
    (run write (delete_usage_before (firstDayOfMonth env));
     console_log (lit "Utilizzo mensile resettato!"))
    (fun _ => console_error (lit "Errore:")).

(** A value bound for an [INTEGER] column must fit in 32 bits. *)
Definition int4 (p : SqlInt) : SqlInt :=
  match p with
  | SqlVal n => if (-2147483648 <=? n) && (n <=? 2147483647) then p else SqlBad
  | _ => p
  end.

(** The assignments of [UPDATE users SET ... WHERE id = ...] of
    [PUT /api/admin/users/:id]: the allowance when [minutes_limit] is a
    number, the role when [role] is ['admin'] or ['student']. *)
Definition limit_update (body : gmap string JsVal) : option SqlInt :=
  match prop body "minutes_limit" with
  | JNum x => Some (int4 (sql_int (JNum x)))
  | JFrac h => Some (int4 (sql_int (JFrac h)))
  | _ => None
  end.

Definition role_update (body : gmap string JsVal) : option Role :=
  match prop body "role" with
  | JStr role =>
      if bool_decide (role = lit "admin") then Some admin
      else if bool_decide (role = lit "student") then Some student
      else None
  | _ => None
  end.

Definition assign (new_limit : option (option Z)) (new_role : option Role)
    (u : UserRow) : UserRow :=
  {| u_id := u_id u;
     u_role := default (u_role u) new_role;
     u_minutes_limit := default (u_minutes_limit u) new_limit |}.

(** The value assigned to [minutes_limit], if it is assigned. *)
Definition assigned_limit (new_limit : option SqlInt) : option (option Z) :=
  match new_limit with
  | Some (SqlVal l) => Some (Some l)
  | Some _ => Some None
  | None => None
  end.

(** [UPDATE users SET ... WHERE id = $n RETURNING *]: the rows returned and
    the store. *)
Definition update_user (new_limit : option SqlInt) (new_role : option Role)
    (id : SqlInt) (db : Db) : Res (list UserRow * Db) :=
  match new_limit, int4 id with
  | Some SqlBad, _ | _, SqlBad => Raise bad_integer
  | _, SqlNull => Ret ([], db)
  | _, SqlVal n =>
      let set := assign (assigned_limit new_limit) new_role in
      Ret (map set (List.filter (fun u => u_id u =? n) (users db)),
           with_users db (map (fun u => if u_id u =? n then set u else u) (users db)))
  end.

(** [await client.query(...)] for a statement that writes and returns rows. *)
Definition write_returning {A : Type} (stmt : Db -> Res (A * Db)) : M A :=
  fun w =>
    let w' := {| w_db := w_db w; w_faults := tail (w_faults w); w_log := w_log w |} in
    match w_faults w with
    | true :: _ => (Raise query_fault, w')
    | _ => match stmt (w_db w) with
           | Ret (a, db') => (Ret a, {| w_db := db'; w_faults := tail (w_faults w);
                                        w_log := w_log w |})
           | Raise e => (Raise e, w')
           end
    end.

(** [PUT /api/admin/users/:id] (lines 2137-2179); [id] is [req.params.id].
    The field [user] of the success response, the row as updated, is left
    out. *)
Definition put_admin_user (env : Env) (id : JsString) (req : Request) : M Response :=
  authenticate env req (fun user =>
    requireAdmin user
      (run connect;
       try_catch
         (let new_limit := limit_update (req_body req) in
          let new_role := role_update (req_body req) in
          match new_limit, new_role with
          | None, None => ret (failure 400 "Nessun campo da aggiornare")
          | _, _ =>
              do rows <- write_returning (update_user new_limit new_role (int_of_text id));
              match rows with
              | [] => ret (failure 404 "Utente non trovato")
              | _ :: _ => ret (res_json 200 [("message", JStr (lit "Utente aggiornato"))])
              end
          end)
         (fun _ =>
            run console_error (lit "Update user error:");
            ret (failure 500 "Errore aggiornamento")))).

(** ** Identifiers in links *)

(** The code units of the class [[-\w]]. *)
Definition is_id_char (c : N) : bool :=
  ((c =? 45) || ((48 <=? c) && (c <=? 57)) || ((65 <=? c) && (c <=? 90))
   || (c =? 95) || ((97 <=? c) && (c <=? 122)))%N.

(** The longest prefix in the class. *)
Fixpoint id_run (s : JsString) : JsString :=
  match s with
  | c :: r => if is_id_char c then c :: id_run r else []
  | [] => []
  end.

(** [extractGoogleDriveId] (lines 2251-2255): the first match of
    [/[-\w]{25,}/], tried from each position in turn, each time with the
    longest run. *)
Fixpoint extractGoogleDriveId (url : JsString) : option JsString :=
  match url with
  | [] => None
  | _ :: rest =>
      if (25 <=? length (id_run url))%nat then Some (id_run url)
      else extractGoogleDriveId rest
  end.

(** A run that answers 401 without a query: the store and the fault plan
    are as they were. *)
Definition turned_away (handler : M Response) (w : World) : Prop :=
  exists resp w',
    handler w = (Ret resp, w')
    /\ status resp = 401
    /\ w_db w' = w_db w
    /\ w_faults w' = w_faults w.

(** The code units of the class of the group: anything but a double quote
    (34), [&], [?], [/] and white space. *)
Definition is_video_char (c : N) : bool :=
  negb ((c =? 34) || (c =? 38) || (c =? 63) || (c =? 47) || is_js_space c)%N.

(** The code units that [.] does not match: the line terminators. *)
Definition is_line_end (c : N) : bool :=
  ((c =? 10) || (c =? 13) || (c =? 8232) || (c =? 8233))%N.

(** [s] without the literal [p] at its head, if it is there. *)
Fixpoint after_literal (p s : JsString) : option JsString :=
  match p, s with
  | [], _ => Some s
  | a :: p', b :: s' => if (a =? b)%N then after_literal p' s' else None
  | _ :: _, [] => None
  end.

(** The group at the head of [s]: eleven code units of that class. *)
Definition eleven (s : JsString) : option JsString :=
  let id := firstn 11 s in
  if Nat.eqb (length id) 11 && forallb is_video_char id then Some id else None.

(** A greedy [.*] followed by [tail]: of the positions that [.*] can reach
    (up to the first line terminator) the last one where [tail] matches. *)
Fixpoint dots_then (tail : JsString -> option JsString) (s : JsString)
  : option JsString :=
  match s with
  | [] => tail []
  | c :: r =>
      if is_line_end c then tail s
      else match dots_then tail r with
           | Some id => Some id
           | None => tail s
           end
  end.

(** The longest prefix without [/], and what follows it. *)
Fixpoint segment (s : JsString) : JsString * JsString :=
  match s with
  | c :: r => if (c =? 47)%N then ([], s)
              else let '(seg, rest) := segment r in (c :: seg, rest)
  | [] => ([], [])
  end.

(** The literal [p], then [k] on what follows it. *)
Definition lit_then (p : string) (k : JsString -> option JsString) (s : JsString)
  : option JsString :=
  match after_literal (lit p) s with
  | Some r => k r
  | None => None
  end.

(** The first alternative that matches. *)
Definition or_else (a b : option JsString) : option JsString :=
  match a with
  | Some id => Some id
  | None => b
  end.

(** [\/] then the group. *)
Definition slash_eleven : JsString -> option JsString := lit_then "/" eleven.

(** [[?&]v=] then the group. *)
Definition v_eleven (s : JsString) : option JsString :=
  match s with
  | c :: r => if ((c =? 63) || (c =? 38))%N then lit_then "v=" eleven r else None
  | [] => None
  end.

(** [.+\/] then the group: [.+] is one code unit that is no line terminator,
    then [.*]. *)
Definition path_eleven (s : JsString) : option JsString :=
  match s with
  | c :: r => if is_line_end c then None else dots_then slash_eleven r
  | [] => None
  end.

(** The three alternatives after [youtube\.com\/], in their order:
    [[^\/]+\/.+\/], then [(?:v|e(?:mbed)?)\/], then [.*[?&]v=]; each followed
    by the group.  A greedy [[^\/]+] can only stop where a [/] follows: any
    shorter match is followed by a code unit that is not [/]. *)
Definition after_youtube_com (s : JsString) : option JsString :=
  let first :=
    match segment s with
    | (_ :: _, rest) => lit_then "/" path_eleven rest
    | ([], _) => None
    end in
  let second :=
    or_else (lit_then "v/" eleven s)
      (or_else (lit_then "embed/" eleven s) (lit_then "e/" eleven s)) in
  or_else first (or_else second (dots_then v_eleven s)).

(** The whole expression at the head of [s]. *)
Definition youtube_here (s : JsString) : option JsString :=
  or_else (lit_then "youtube.com/" after_youtube_com s) (lit_then "youtu.be/" eleven s).

(** [extractYouTubeId] (lines 2245-2249): the group of the first match of
    [/(?:youtube\.com\/(?:[^\/]+\/.+\/|(?:v|e(?:mbed)?)\/|.*[?&]v=)|youtu\.be\/)(G)/]
    with [G] the group of eleven code units, tried from each position in
    turn. *)
Fixpoint extractYouTubeId (url : JsString) : option JsString :=
  match youtube_here url with
  | Some id => Some id
  | None =>
      match url with
      | [] => None
      | _ :: rest => extractYouTubeId rest
      end
  end.

(** What a request that records has yet to add: its amount as the column
    rounds it. *)
Definition owed (r : Recorder) : Z :=
  match r with
  | Selecting _ _ amount | Writing _ _ _ amount => round_half_away amount
  | Finished _ => 0
  end.

Definition owed_by_all (rs : list Recorder) : Z := foldr (fun r acc => owed r + acc) 0 rs.

(** What a request owes is its amount to the nearest hundredth. *)
Definition owes_nearest (r : Recorder) : Prop :=
  match r with
  | Selecting _ _ amount | Writing _ _ _ amount => nearest (owed r) amount
  | Finished _ => True
  end.

(** A request that records for user [uid] and [day] on a table where the
    row of that user and day has the key [rid]: it has not read yet, or it
    has read that row, or it has finished without an exception. *)
Definition on_existing_row (uid : Z) (day : Day) (rid : Z) (r : Recorder) : Prop :=
  match r with
  | Selecting userId d amount => userId = JNum (int uid) /\ d = day /\ (0 <= amount)%Q
  | Writing existing _ _ amount =>
      (0 <= amount)%Q /\ exists row rest, existing = row :: rest /\ us_id row = rid
  | Finished outcome => outcome = Ret tt
  end.

(** The table has a row of user [uid] and [day], with the key [rid]. *)
Definition has_row (uid : Z) (day : Day) (rid : Z) (db : Db) : Prop :=
  exists row, In row (usage db) /\ us_id row = rid /\ on_day uid day row = true.

(** ** Sessions of the scenarios *)

Module Session.

(** [req.user] for the token of a user of the scenarios. *)
Definition payload (u : UserRow) : gmap string JsVal :=
  <["iat" := JNum (int (now Scenario.env))]>
    (<["exp" := JNum (int (now Scenario.env + 2592000))]>
       {[ "userId" := JNum (int (u_id u));
          "email" := JStr (lit "user@example.com");
          "role" := JStr (role_name (u_role u)) ]}).

(** A request of that user. *)
Definition request (u : UserRow) (fields : list (string * JsVal)) : Request :=
  Scenario.request (Scenario.token_of u) fields.

End Session.

(** * Checks of the definitions *)

Example prop_absent :
  prop {[ "userId" := JNum (int 7) ]} "id" = JUndefined.
Proof. reflexivity. Qed.

Example prop_present :
  prop {[ "userId" := JNum (int 7); "role" := JStr (lit "admin") ]} "userId" = JNum (int 7).
Proof. vm_compute. reflexivity. Qed.

Example parseInt_15 : parseInt (lit "15") = int 15.
Proof. reflexivity. Qed.

Example parseInt_garbage : parseInt (lit "many") = NaN.
Proof. reflexivity. Qed.

Example parseInt_prefix : parseInt (lit " 20 calls") = int 20.
Proof. reflexivity. Qed.

Example split_plain :
  split_ws (lit "How are you") = [lit "How"; lit "are"; lit "you"].
Proof. reflexivity. Qed.

Example split_edges : split_ws (lit " hi  ") = [[]; lit "hi"; []].
Proof. reflexivity. Qed.

Example split_empty : split_ws [] = [[]].
Proof. reflexivity. Qed.

Example estimatedMinutes_150 : estimatedMinutes 150 = 100.
Proof. reflexivity. Qed.

Example estimatedMinutes_1 : estimatedMinutes 1 = 1.
Proof. reflexivity. Qed.

Example estimatedMinutes_300 : estimatedMinutes 300 = 200.
Proof. reflexivity. Qed.

Example int_of_text_7 : int_of_text (lit " 7 ") = SqlVal 7.
Proof. reflexivity. Qed.

Example int_of_text_bad : int_of_text (lit "7a") = SqlBad.
Proof. reflexivity. Qed.

Example sql_int_fraction : sql_int (JFrac (75 # 10)) = SqlBad.
Proof. reflexivity. Qed.

Example round_below_half : round_half_away (4 # 10) = 0.
Proof. reflexivity. Qed.

Example round_tie : round_half_away (5 # 10) = 1.
Proof. reflexivity. Qed.

Example round_tie_negative : round_half_away (- (5 # 10)) = -1.
Proof. reflexivity. Qed.

Example numeric_10_2_largest : numeric_10_2 (99999999994 # 10) = Ret 9999999999.
Proof. reflexivity. Qed.

Example numeric_10_2_refused : numeric_10_2 (99999999995 # 10) = Raise numeric_overflow.
Proof. reflexivity. Qed.

Example tokens_padded : tokens (lit "  How are   you ") = 3.
Proof. reflexivity. Qed.

Example tokens_empty : tokens [] = 0.
Proof. reflexivity. Qed.

Example insert_for_unknown_user :
  insert_usage (SqlVal 99) 19675 100 (Scenario.store [] []) = Raise foreign_key_violation.
Proof. reflexivity. Qed.

Example update_beyond_capacity :
  update_add_minutes 100 1 (Scenario.store [Scenario.row 1 7 19675 9999999950] [])
  = Raise numeric_overflow.
Proof. reflexivity. Qed.

(** * The ledger statements *)

Lemma sql_int_int (n : Z) : sql_int (JNum (int n)) = SqlVal n.
Proof.
  unfold sql_int, int.
  replace (100 * n) with (n * 100) by lia.
  rewrite Z.mod_mul by lia. rewrite Z.div_mul by lia. reflexivity.
Qed.

Lemma sum_minutes_app (a b : list UsageRow) :
  sum_minutes (a ++ b) = sum_minutes a + sum_minutes b.
Proof.
  induction a as [|r a IH]; simpl; [reflexivity | rewrite IH; lia].
Qed.

Lemma fresh_above (ids : list Z) (x : Z) : In x ids -> x < fresh ids.
Proof.
  unfold fresh. induction ids as [|y ids IH]; simpl; [tauto|].
  intros [->|Hin]; [lia | specialize (IH Hin); lia].
Qed.

Lemma fresh_not_in (ids : list Z) : ~ In (fresh ids) ids.
Proof. intros Hin. apply fresh_above in Hin. lia. Qed.

(** ** Rounding to the scale of the column *)

Lemma Qfloor_add_Z (n : Z) (q : Q) : Qfloor (inject_Z n + q) = n + Qfloor q.
Proof.
  destruct q as [a d]. unfold Qfloor, Qplus, inject_Z. cbn [Qnum Qden].
  rewrite Z.mul_1_r, Pos.mul_1_l.
  replace (n * Z.pos d + a) with (a + n * Z.pos d) by lia.
  rewrite Z.div_add by lia. lia.
Qed.

Lemma Qfloor_half (n : Z) : Qfloor (inject_Z n + (1 # 2)) = n.
Proof. rewrite Qfloor_add_Z. change (Qfloor (1 # 2)) with 0. lia. Qed.

(** A whole number of hundredths is stored as it is. *)
Lemma round_half_away_Z (n : Z) : round_half_away (inject_Z n) = n.
Proof.
  unfold round_half_away.
  destruct (Qle_bool 0 (inject_Z n)).
  - apply Qfloor_half.
  - change (- inject_Z n)%Q with (inject_Z (- n)). rewrite Qfloor_half. lia.
Qed.

Lemma round_half_away_comp (p q : Q) : (p == q)%Q -> round_half_away p = round_half_away q.
Proof.
  intros Heq. unfold round_half_away. rewrite Heq.
  destruct (Qle_bool 0 q); [|f_equal]; apply Qfloor_comp; rewrite Heq; reflexivity.
Qed.

Lemma round_half_away_nonneg (q : Q) : (0 <= q)%Q -> 0 <= round_half_away q.
Proof.
  intros Hq. unfold round_half_away.
  apply Qle_bool_iff in Hq as Hb. rewrite Hb.
  change 0 with (Qfloor 0). apply Qfloor_resp_le.
  apply Qle_trans with q; [exact Hq|].
  rewrite <- (Qplus_0_r q) at 1. apply Qplus_le_r. discriminate.
Qed.

(** For an amount that is not negative the column takes the nearest number
    of hundredths, ties up. *)
Lemma round_half_away_nearest (q : Q) : (0 <= q)%Q -> nearest (round_half_away q) q.
Proof.
  intros Hq. unfold nearest, round_half_away.
  apply Qle_bool_iff in Hq. rewrite Hq.
  pose proof (Qfloor_le (q + (1 # 2))) as Hlow.
  pose proof (Qlt_floor (q + (1 # 2))) as Hhigh.
  rewrite inject_Z_plus in Hhigh. change (inject_Z 1) with 1%Q in Hhigh.
  split; lra.
Qed.

(** Adding a non-negative amount to a non-negative stored value and rounding
    the sum is adding the rounded amount. *)
Lemma round_half_away_add (n : Z) (q : Q) :
  0 <= n -> (0 <= q)%Q -> round_half_away (inject_Z n + q) = n + round_half_away q.
Proof.
  intros Hn Hq. unfold round_half_away.
  assert (0 <= inject_Z n + q)%Q as Hsum.
  { replace 0%Q with (0 + 0)%Q by reflexivity. apply Qplus_le_compat; [|exact Hq].
    unfold Qle. simpl. lia. }
  apply Qle_bool_iff in Hsum. apply Qle_bool_iff in Hq. rewrite Hsum, Hq.
  rewrite <- Qfloor_add_Z. apply Qfloor_comp. ring.
Qed.

Lemma round_half_away_sum (a b : Z) : round_half_away (inject_Z a + inject_Z b) = a + b.
Proof.
  rewrite <- (round_half_away_Z (a + b)). apply round_half_away_comp.
  rewrite inject_Z_plus. reflexivity.
Qed.

Lemma numeric_10_2_fits (h : Q) :
  Z.abs (round_half_away h) < 10000000000 -> numeric_10_2 h = Ret (round_half_away h).
Proof.
  intros Hfit. unfold numeric_10_2.
  destruct (Z.ltb_spec (Z.abs (round_half_away h)) 10000000000); [reflexivity | lia].
Qed.

Lemma numeric_10_2_inv (h : Q) (v : Z) :
  numeric_10_2 h = Ret v -> v = round_half_away h /\ Z.abs v < 10000000000.
Proof.
  unfold numeric_10_2.
  destruct (Z.ltb_spec (Z.abs (round_half_away h)) 10000000000); [|discriminate].
  intros [= <-]. auto.
Qed.

Section Ledger.

Variables (uid : Z) (day : Day).

Lemma bump_on_day (amount id : Z) (r : UsageRow) :
  on_day uid day (bump amount id r) = on_day uid day r.
Proof. unfold bump, on_day. destruct (us_id r =? id); reflexivity. Qed.

Lemma bump_id (amount id : Z) (rows : list UsageRow) :
  map us_id (map (bump amount id) rows) = map us_id rows.
Proof.
  induction rows as [|r rows IH]; simpl; [reflexivity|].
  rewrite IH. unfold bump. destruct (us_id r =? id); reflexivity.
Qed.

Lemma bump_elsewhere (amount id : Z) (rows : list UsageRow) :
  ~ In id (map us_id rows) -> map (bump amount id) rows = rows.
Proof.
  induction rows as [|r rows IH]; simpl; [reflexivity|].
  intros Hnot. rewrite IH by tauto. unfold bump.
  destruct (Z.eqb_spec (us_id r) id); [tauto | reflexivity].
Qed.

(** Under the key [id], an [UPDATE ... WHERE id] of a row of the user and
    the day adds the amount to what is stored for them. *)
Lemma stored_bump (amount : Z) (row : UsageRow) (rows : list UsageRow) :
  NoDup (map us_id rows) -> In row rows -> on_day uid day row = true ->
  sum_minutes (List.filter (on_day uid day) (map (bump amount (us_id row)) rows))
  = sum_minutes (List.filter (on_day uid day) rows) + amount.
Proof.
  induction rows as [|r rows IH]; simpl; [tauto|].
  intros Hnd Hin Hrow. inversion Hnd as [|? ? Hfresh Hnd']; subst.
  rewrite list_elem_of_In in Hfresh. rewrite bump_on_day.
  destruct Hin as [->|Hin].
  - rewrite bump_elsewhere by assumption. rewrite Hrow. simpl.
    unfold bump at 1. rewrite Z.eqb_refl. simpl. lia.
  - assert (us_id r <> us_id row) as Hne.
    { intros Heq. apply Hfresh. rewrite Heq. now apply in_map. }
    specialize (IH Hnd' Hin Hrow).
    unfold bump at 1. destruct (Z.eqb_spec (us_id r) (us_id row)); [tauto|].
    destruct (on_day uid day r); simpl; lia.
Qed.

Lemma no_row_stored (rows : list UsageRow) :
  existsb (on_day uid day) rows = false ->
  List.filter (on_day uid day) rows = [].
Proof.
  induction rows as [|r rows IH]; simpl; [reflexivity|].
  destruct (on_day uid day r); simpl; [discriminate | exact IH].
Qed.

Lemma filter_nil_existsb (rows : list UsageRow) :
  List.filter (on_day uid day) rows = [] ->
  existsb (on_day uid day) rows = false.
Proof.
  induction rows as [|r rows IH]; simpl; [reflexivity|].
  destruct (on_day uid day r); simpl; [discriminate | exact IH].
Qed.

Lemma key_row (rows : list UsageRow) (r r' : UsageRow) :
  NoDup (map us_id rows) -> In r rows -> In r' rows -> us_id r = us_id r' -> r = r'.
Proof.
  induction rows as [|x rows IH]; simpl; [tauto|].
  intros Hnd Hr Hr' Heq. inversion Hnd as [|? ? Hfresh Hnd']; subst.
  rewrite list_elem_of_In in Hfresh.
  destruct Hr as [->|Hr], Hr' as [->|Hr']; [reflexivity | | | now apply IH].
  - exfalso. apply Hfresh. rewrite Heq. now apply in_map.
  - exfalso. apply Hfresh. rewrite <- Heq. now apply in_map.
Qed.

(** The row that the [UPDATE] leaves when the column takes the sum. *)
Lemma add_minutes_bump (amount : Q) (a : Z) (r : UsageRow) :
  numeric_10_2 (inject_Z (us_minutes_used r) + amount) = Ret (us_minutes_used r + a) ->
  0 <= us_minutes_used r + a ->
  add_minutes amount r = Ret (bump a (us_id r) r).
Proof.
  intros Hsum Hpos. unfold add_minutes, bump. rewrite Hsum, Z.eqb_refl.
  destruct (Z.leb_spec 0 (us_minutes_used r + a)); [reflexivity | lia].
Qed.

Lemma update_where_id_bump (amount : Q) (a id : Z) (rows : list UsageRow) :
  (forall r, In r rows -> us_id r = id -> add_minutes amount r = Ret (bump a id r)) ->
  update_where_id amount id rows = Ret (map (bump a id) rows).
Proof.
  induction rows as [|r rows IH]; intros Hrows; simpl; [reflexivity|].
  rewrite IH by (intros; apply Hrows; [now right | assumption]).
  destruct (Z.eqb_spec (us_id r) id) as [Hid|Hne].
  - rewrite (Hrows r (or_introl eq_refl) Hid). reflexivity.
  - unfold bump. destruct (Z.eqb_spec (us_id r) id); [contradiction | reflexivity].
Qed.

(** With a whole number of hundredths for the amount, an [UPDATE] that is
    accepted has added the amount. *)
Lemma update_where_id_inv (a id : Z) (rows rows' : list UsageRow) :
  update_where_id (inject_Z a) id rows = Ret rows' -> rows' = map (bump a id) rows.
Proof.
  revert rows'. induction rows as [|r rows IH]; intros rows'; simpl; [now intros [= <-]|].
  unfold bump at 1, add_minutes.
  destruct (us_id r =? id).
  - destruct (numeric_10_2 _) as [v|e] eqn:Hv; [|discriminate].
    apply numeric_10_2_inv in Hv as [-> _]. rewrite round_half_away_sum.
    destruct (0 <=? us_minutes_used r + a); [|discriminate].
    destruct (update_where_id _ id rows) as [rest|e]; [|discriminate].
    intros [= <-]. now rewrite (IH rest).
  - destruct (update_where_id _ id rows) as [rest|e]; [|discriminate].
    intros [= <-]. now rewrite (IH rest).
Qed.

Lemma bump_nonneg (amount id : Z) (rows : list UsageRow) :
  0 <= amount -> Forall (fun r => 0 <= us_minutes_used r) rows ->
  Forall (fun r => 0 <= us_minutes_used r) (map (bump amount id) rows).
Proof.
  intros Hpos Hall. induction Hall as [|r rows Hr Hall IH]; simpl; constructor.
  - unfold bump. destruct (us_id r =? id); simpl; lia.
  - exact IH.
Qed.

Lemma bump_user_date (amount id : Z) (rows : list UsageRow) :
  map user_date (map (bump amount id) rows) = map user_date rows.
Proof.
  induction rows as [|r rows IH]; simpl; [reflexivity|].
  rewrite IH. unfold bump. destruct (us_id r =? id); reflexivity.
Qed.

Lemma on_day_user_date (r : UsageRow) :
  on_day uid day r = true <-> user_date r = (uid, day).
Proof.
  unfold on_day, user_date. rewrite andb_true_iff, !Z.eqb_eq.
  split; [intros [-> ->]; reflexivity | intros [= -> ->]; split; reflexivity].
Qed.

Lemma no_row_user_date (rows : list UsageRow) :
  List.filter (on_day uid day) rows = [] -> (uid, day) ∉ map user_date rows.
Proof.
  intros Hsel Hin. apply list_elem_of_In, in_map_iff in Hin as (r & Hkey & Hin).
  apply on_day_user_date in Hkey.
  assert (In r (List.filter (on_day uid day) rows)) as Hr
    by (apply filter_In; split; assumption).
  rewrite Hsel in Hr. exact Hr.
Qed.

(** Under [unique_user_date] a selection by user and day has one row at most. *)
Lemma one_row_at_most (rows : list UsageRow) :
  NoDup (map user_date rows) ->
  (length (List.filter (on_day uid day) rows) <= 1)%nat.
Proof.
  induction rows as [|r rows IH]; simpl; [lia|].
  intros Hnd. inversion Hnd as [|? ? Hfresh Hnd']; subst.
  specialize (IH Hnd').
  destruct (on_day uid day r) eqn:Hr; [|exact IH].
  apply on_day_user_date in Hr. simpl.
  destruct (List.filter (on_day uid day) rows) as [|r' rest] eqn:Hsel; [simpl; lia|].
  exfalso. apply Hfresh. rewrite Hr.
  assert (In r' (List.filter (on_day uid day) rows)) as Hin
    by (rewrite Hsel; now left).
  apply filter_In in Hin as [Hin Hkey]. apply on_day_user_date in Hkey.
  apply list_elem_of_In, in_map_iff. exists r'. split; assumption.
Qed.

End Ledger.

(** ** One recording, then a sequence of recordings *)

Lemma stored_nonneg (uid : Z) (day : Day) (db : Db) :
  Forall (fun r => 0 <= us_minutes_used r) (usage db) -> 0 <= stored uid day db.
Proof.
  unfold stored. intros Hpos.
  induction Hpos as [|r rows Hr Hpos IH]; simpl; [lia|].
  destruct (on_day uid day r); simpl; lia.
Qed.

(** A selected row holds no more than what is stored for the user and day. *)
Lemma selected_below_stored (uid : Z) (day : Day) (db : Db) (row : UsageRow) :
  Forall (fun r => 0 <= us_minutes_used r) (usage db) ->
  In row (List.filter (on_day uid day) (usage db)) ->
  0 <= us_minutes_used row <= stored uid day db.
Proof.
  unfold stored. intros Hpos.
  induction Hpos as [|r rows Hr Hpos IH]; simpl; [tauto|].
  destruct (on_day uid day r); simpl.
  - pose proof (stored_nonneg uid day {| users := []; usage := rows; tts_usage := [];
                                         api_configs := ∅ |} Hpos) as Hrest.
    unfold stored in Hrest. simpl in Hrest.
    intros [<-|Hin]; [lia | specialize (IH Hin); lia].
  - exact IH.
Qed.

(** On a store without fault, for a user that exists, a recording of an
    amount that is not negative and that the column can hold does what
    [recorded] says with the amount rounded to hundredths. *)
Lemma recordMinutes_calm (uid : Z) (day : Day) (amount : Q) (db : Db)
    (log : list JsString) :
  usage_ok db -> references_user uid db = true -> (0 <= amount)%Q ->
  stored uid day db + round_half_away amount < 10000000000 ->
  recordMinutes (JNum (int uid)) day amount (calm db log)
  = (Ret tt, calm (with_usage db (recorded uid day (round_half_away amount) db)) log).
Proof.
  intros (Hkey & Hpos & _) Huser Hamount Hfit.
  pose proof (round_half_away_nonneg amount Hamount) as Hround.
  unfold recordMinutes. rewrite sql_int_int.
  unfold bind, read, write, calm, recorded, select_existing, where_int. simpl.
  destruct (List.filter (on_day uid day) (usage db)) as [|row rest] eqn:Hsel; simpl.
  - unfold insert_usage.
    assert (stored uid day db = 0) as Hzero by (unfold stored; now rewrite Hsel).
    rewrite numeric_10_2_fits by lia.
    destruct (Z.leb_spec 0 (round_half_away amount)) as [_|]; [simpl | lia].
    rewrite (filter_nil_existsb _ _ _ Hsel), Huser. reflexivity.
  - unfold update_add_minutes.
    assert (In row (List.filter (on_day uid day) (usage db))) as Hin
      by (rewrite Hsel; now left).
    pose proof (selected_below_stored uid day db row Hpos Hin) as Hrow.
    apply filter_In in Hin as [Hin _].
    rewrite (update_where_id_bump amount (round_half_away amount)); [reflexivity|].
    intros r Hr Hid.
    rewrite (key_row (usage db) r row Hkey Hr Hin Hid).
    apply add_minutes_bump; [|lia].
    rewrite numeric_10_2_fits; rewrite round_half_away_add by (lia || assumption);
      [reflexivity | lia].
Qed.

Lemma recorded_ok (uid : Z) (day : Day) (amount : Z) (db : Db) :
  usage_ok db -> 0 <= amount ->
  usage_ok (with_usage db (recorded uid day amount db)).
Proof.
  intros (Hkey & Hpos & Huniq) Hamount. unfold usage_ok, recorded. simpl.
  destruct (List.filter (on_day uid day) (usage db)) as [|row rest] eqn:Hsel.
  - rewrite !map_app. simpl. repeat split.
    + apply NoDup_app. repeat split; [exact Hkey | | apply NoDup_singleton].
      intros x Hx Hnew. apply list_elem_of_In in Hx.
      rewrite list_elem_of_singleton in Hnew. subst x.
      now apply fresh_not_in in Hx.
    + apply Forall_app. split; [exact Hpos|]. repeat constructor. exact Hamount.
    + apply NoDup_app. repeat split; [exact Huniq | | apply NoDup_singleton].
      intros x Hx Hnew. rewrite list_elem_of_singleton in Hnew. subst x.
      now apply (no_row_user_date uid day (usage db) Hsel).
  - rewrite bump_id, bump_user_date. repeat split; [exact Hkey | | exact Huniq].
    now apply bump_nonneg.
Qed.

Lemma recorded_stored (uid : Z) (day : Day) (amount : Z) (db : Db) :
  NoDup (map us_id (usage db)) ->
  stored uid day (with_usage db (recorded uid day amount db))
  = stored uid day db + amount.
Proof.
  intros Hkey. unfold stored, recorded. simpl.
  destruct (List.filter (on_day uid day) (usage db)) as [|row rest] eqn:Hsel.
  - rewrite List.filter_app, sum_minutes_app, Hsel. simpl.
    unfold on_day at 1. simpl. rewrite !Z.eqb_refl. simpl. lia.
  - assert (In row (List.filter (on_day uid day) (usage db))) as Hin
      by (rewrite Hsel; now left).
    apply filter_In in Hin as [Hin Hrow].
    rewrite (stored_bump uid day amount row (usage db) Hkey Hin Hrow).
    rewrite Hsel. reflexivity.
Qed.

Lemma total_nonneg (amounts : list Q) :
  Forall (fun a => (0 <= a)%Q) amounts -> 0 <= total (map round_half_away amounts).
Proof.
  intros Hall. induction Hall as [|a amounts Ha Hall IH]; simpl; [lia|].
  pose proof (round_half_away_nonneg a Ha). lia.
Qed.

Lemma total_of_cents (cents : list Z) :
  total (map round_half_away (map inject_Z cents)) = total cents.
Proof.
  induction cents as [|c cents IH]; simpl; [reflexivity|].
  now rewrite round_half_away_Z, IH.
Qed.

Lemma record_all_calm (uid : Z) (day : Day) (amounts : list Q) :
  forall (db : Db) (log : list JsString),
  usage_ok db -> references_user uid db = true ->
  Forall (fun a => (0 <= a)%Q) amounts ->
  stored uid day db + total (map round_half_away amounts) < 10000000000 ->
  exists db',
    record_all (JNum (int uid)) day amounts (calm db log) = (Ret tt, calm db' log)
    /\ usage_ok db'
    /\ stored uid day db' = stored uid day db + total (map round_half_away amounts).
Proof.
  induction amounts as [|amount rest IH]; intros db log Hok Huser Hall Hfit.
  - exists db. simpl. unfold ret. repeat split; [apply Hok | apply Hok | apply Hok | lia].
  - inversion Hall as [|? ? Hamount Hrest]; subst. simpl in Hfit.
    pose proof (round_half_away_nonneg amount Hamount) as Hround.
    pose proof (total_nonneg rest Hrest) as Htotal.
    pose proof (recorded_ok uid day (round_half_away amount) db Hok Hround) as Hok'.
    pose proof (recorded_stored uid day (round_half_away amount) db (proj1 Hok)) as Hsum1.
    destruct (IH _ log Hok' Huser Hrest) as (db' & Hrun & Hok'' & Hsum); [lia|].
    exists db'. split; [|split; [exact Hok''|]].
    + simpl. unfold bind at 1.
      rewrite (recordMinutes_calm uid day amount db log Hok Huser Hamount) by lia.
      exact Hrun.
    + rewrite Hsum, Hsum1. simpl. lia.
Qed.

(** C4 (counterexample).  Anna posts 0.004 minutes three times to
    [POST /api/user/usage].  Each request is answered 200 with
    [minutes_added: 0.004]; the first creates a row that holds 0.00, not the
    amount, and after the three the stored value is 0.00, not their sum 0.012.
    An amount of 100000000 minutes is answered 500 and nothing is stored. *)
Lemma small_amounts_are_rounded_away :
  let post (minutes : JsVal) :=
    post_user_usage Scenario.env
      (Scenario.request (Scenario.token_of Scenario.anna) [("minutes", minutes)]) in
  let w := calm (Scenario.store [] []) [] in
  let first := post (JFrac (4 # 10)) w in
  let '(statuses, w3) := serve (post (JFrac (4 # 10))) 3 w in
  let large := post (JNum (int 100000000)) w in
  answer first
  = Some (res_json 200 [("message", JStr (lit "Utilizzo registrato"));
                        ("minutes_added", JFrac (4 # 10))])
  /\ usage (w_db (after first)) = [Scenario.row 1 7 19675 0]
  /\ statuses = [Some 200; Some 200; Some 200]
  /\ stored 7 19675 (w_db w3) = 0
  /\ round_half_away ((4 # 10) + (4 # 10) + (4 # 10)) = 1
  /\ status <$> answer large = Some 500
  /\ usage (w_db (after large)) = [].
Proof. vm_compute. repeat split; reflexivity. Qed.

(** C4 (amended).  For a fixed user, who exists in [users], and a day,
    recordings executed one after the other on a store without fault, with
    amounts that are not negative and while the value stays below 10^8
    minutes, leave as stored value what was stored before plus the sum of the
    amounts, each rounded to hundredths (ties up); for amounts that are whole
    hundredths, as every amount that [POST /api/chat] records, this is what
    was stored plus the sum of the amounts.  The value is held by one row at
    most; a recording that finds no row appends a row holding the rounded
    amount, and a recording that finds a row adds the rounded amount to that
    row. *)
Theorem recordMinutes_accumulates (uid : Z) (day : Day) (amounts : list Q)
    (db : Db) (log : list JsString) :
  usage_ok db -> references_user uid db = true ->
  Forall (fun a => (0 <= a)%Q) amounts ->
  stored uid day db + total (map round_half_away amounts) < 10000000000 ->
  (exists db',
     record_all (JNum (int uid)) day amounts (calm db log) = (Ret tt, calm db' log)
     /\ stored uid day db' = stored uid day db + total (map round_half_away amounts)
     /\ (forall cents, amounts = map inject_Z cents ->
           stored uid day db' = stored uid day db + total cents)
     /\ (length (List.filter (on_day uid day) (usage db')) <= 1)%nat)
  /\ Forall (fun a => nearest (round_half_away a) a) amounts
  /\ (forall amount, (0 <= amount)%Q -> round_half_away amount < 10000000000 ->
      List.filter (on_day uid day) (usage db) = [] ->
      recordMinutes (JNum (int uid)) day amount (calm db log)
      = (Ret tt,
         calm (with_usage db
                 (usage db ++ [created uid day (round_half_away amount) db])) log))
  /\ (forall amount row rest, (0 <= amount)%Q ->
      stored uid day db + round_half_away amount < 10000000000 ->
      List.filter (on_day uid day) (usage db) = row :: rest ->
      recordMinutes (JNum (int uid)) day amount (calm db log)
      = (Ret tt,
         calm (with_usage db
                 (map (bump (round_half_away amount) (us_id row)) (usage db))) log)).
Proof.
  intros Hok Huser Hall Hfit. split; [|split; [|split]].
  - destruct (record_all_calm uid day amounts db log Hok Huser Hall Hfit)
      as (db' & Hrun & Hok' & Hsum).
    exists db'. split; [exact Hrun|]. split; [exact Hsum|]. split.
    + intros cents ->. rewrite Hsum, total_of_cents. reflexivity.
    + apply one_row_at_most, Hok'.
  - apply List.Forall_forall. intros a Ha. apply round_half_away_nearest.
    rewrite List.Forall_forall in Hall. now apply Hall.
  - intros amount Hamount Hsmall Hsel.
    rewrite (recordMinutes_calm uid day amount db log Hok Huser Hamount).
    + unfold recorded. rewrite Hsel. reflexivity.
    + unfold stored. rewrite Hsel. simpl. lia.
  - intros amount row rest Hamount Hsmall Hsel.
    rewrite (recordMinutes_calm uid day amount db log Hok Huser Hamount Hsmall).
    unfold recorded. rewrite Hsel. reflexivity.
Qed.

Lemma empty_usage_ok : usage_ok (Scenario.store [] []).
Proof. repeat split; simpl; constructor. Defined.

Lemma recordMinutes_accumulates_witness :
  usage_ok (Scenario.store [] [])
  /\ references_user 7 (Scenario.store [] []) = true
  /\ Forall (fun a => (0 <= a)%Q) (map inject_Z [250; 100; 4])
  /\ exists db',
       record_all (JNum (int 7)) 19675 (map inject_Z [250; 100; 4])
                  (calm (Scenario.store [] []) [])
       = (Ret tt, calm db' [])
       /\ stored 7 19675 db' = stored 7 19675 (Scenario.store [] []) + total [250; 100; 4].
Proof.
  split; [exact empty_usage_ok|].
  split; [reflexivity|].
  assert (Forall (fun a => (0 <= a)%Q) (map inject_Z [250; 100; 4])) as Hall
    by (repeat constructor; discriminate).
  split; [exact Hall|].
  destruct (recordMinutes_accumulates 7 19675 (map inject_Z [250; 100; 4])
              (Scenario.store [] []) [] empty_usage_ok eq_refl Hall)
    as [(db' & Hrun & _ & Hcents & _) _].
  - vm_compute. reflexivity.
  - exists db'. split; [exact Hrun|]. apply Hcents. reflexivity.
Defined.

Example three_recordings :
  (let '(_, w) := record_all (JNum (int 7)) 19675 (map inject_Z [250; 100; 4])
                             (calm (Scenario.store [] []) []) in usage (w_db w))
  = [Scenario.row 1 7 19675 354].
Proof. vm_compute. reflexivity. Qed.

(** * What a computation may do to the store *)

Create HintDb effects.

Section Effects.

Context {A B : Type}.

Lemma keeps_ret (a : A) : keeps_db (ret a).
Proof. intros w. reflexivity. Qed.

Lemma keeps_raise (e : JsString) : keeps_db (@raise A e).
Proof. intros w. reflexivity. Qed.

Lemma keeps_read (stmt : Db -> Res A) : keeps_db (read stmt).
Proof. intros w. unfold read. destruct (w_faults w) as [|[] ?]; reflexivity. Qed.

Lemma keeps_bind (m : M A) (k : A -> M B) :
  keeps_db m -> (forall a, keeps_db (k a)) -> keeps_db (bind m k).
Proof.
  intros Hm Hk w. unfold bind. specialize (Hm w).
  destruct (m w) as [[a|e] w1]; simpl in *; [|exact Hm].
  rewrite Hk. exact Hm.
Qed.

Lemma keeps_try_catch (m : M A) (h : JsString -> M A) :
  keeps_db m -> (forall e, keeps_db (h e)) -> keeps_db (try_catch m h).
Proof.
  intros Hm Hh w. unfold try_catch. specialize (Hm w).
  destruct (m w) as [[a|e] w1]; simpl in *; [exact Hm|].
  rewrite Hh. exact Hm.
Qed.

Lemma raise_keeps_of_keeps (m : M A) : keeps_db m -> raise_keeps m.
Proof. intros Hm w e w' Hrun. specialize (Hm w). now rewrite Hrun in Hm. Qed.

Lemma raise_keeps_bind (m : M A) (k : A -> M B) :
  keeps_db m -> (forall a, raise_keeps (k a)) -> raise_keeps (bind m k).
Proof.
  intros Hm Hk w e w' Hrun. unfold bind in Hrun. specialize (Hm w).
  destruct (m w) as [[a|e1] w1]; simpl in *.
  - rewrite (Hk a w1 e w' Hrun). exact Hm.
  - now inversion Hrun; subst.
Qed.

End Effects.

Lemma keeps_console_error (label : JsString) : keeps_db (console_error label).
Proof. intros w. reflexivity. Qed.

Lemma keeps_connect : keeps_db connect.
Proof. apply keeps_read. Qed.

Lemma raise_keeps_write (stmt : Db -> Res Db) : raise_keeps (write stmt).
Proof.
  intros w e w' Hrun. unfold write in Hrun.
  destruct (w_faults w) as [|[] ?]; try destruct (stmt (w_db w));
    inversion Hrun; subst; reflexivity.
Qed.

#[export] Hint Resolve keeps_ret keeps_raise keeps_read keeps_console_error
  keeps_connect raise_keeps_write : effects.





Lemma keeps_authenticate (env : Env) (req : Request)
    (next : gmap string JsVal -> M Response) :
  (forall user, keeps_db (next user)) -> keeps_db (authenticate env req next).
Proof.
  intros Hnext. unfold authenticate.
  destruct (authorization req) as [token|]; [|apply keeps_ret].
  destruct (jwt_verify token (jwt_secret env) (now env)); [apply Hnext|].
  apply keeps_bind; auto with effects.
Qed.


Lemma keeps_admitConversation (env : Env) (userId : JsVal) :
  keeps_db (admitConversation env userId).
Proof. unfold admitConversation. repeat (apply keeps_bind; [auto with effects | intros]). apply keeps_ret. Qed.

Lemma keeps_admitTTS (env : Env) (userId : JsVal) :
  keeps_db (admitTTS env userId).
Proof. unfold admitTTS. repeat (apply keeps_bind; [auto with effects | intros]). apply keeps_ret. Qed.

Lemma raise_keeps_recordMinutes (userId : JsVal) (day : Day) (amount : Q) :
  raise_keeps (recordMinutes userId day amount).
Proof.
  unfold recordMinutes. apply raise_keeps_bind; [auto with effects|].
  intros [|row rest]; auto with effects.
Qed.

(** [trackTTSUsage] never raises. *)
Lemma trackTTSUsage_returns (env : Env) (userId : JsVal) (w : World) :
  exists w', trackTTSUsage env userId w = (Ret tt, w').
Proof.
  unfold trackTTSUsage, try_catch, console_error.
  destruct (write _ w) as [[[]|e] w1]; eauto.
Qed.

Lemma raise_keeps_trackTTSUsage (env : Env) (userId : JsVal) :
  raise_keeps (trackTTSUsage env userId).
Proof.
  intros w e w' Hrun.
  destruct (trackTTSUsage_returns env userId w) as [w1 Hret]. congruence.
Qed.

#[export] Hint Resolve keeps_admitConversation keeps_admitTTS
  raise_keeps_recordMinutes raise_keeps_trackTTSUsage : effects.

Ltac effects :=
  repeat first
    [ apply keeps_ret | apply keeps_raise | apply keeps_read
    | apply keeps_connect
    | apply keeps_console_error | apply keeps_admitConversation
    | apply keeps_admitTTS
    | apply keeps_authenticate; intros
    | apply keeps_bind; [|intros]
    | apply keeps_try_catch; [|intros]
    | match goal with
      | |- keeps_db (if ?b then _ else _) => destruct b
      | |- keeps_db (match ?x with _ => _ end) => destruct x
      end ].


(** ** The handlers and the store *)





(** ** Reading a run backwards *)

Lemma bind_ret_inv (A B : Type) (m : M A) (k : A -> M B) (w w' : World) (b : B) :
  bind m k w = (Ret b, w') ->
  exists a w1, m w = (Ret a, w1) /\ k a w1 = (Ret b, w').
Proof.
  unfold bind. destruct (m w) as [[a|e] w1]; [eauto | discriminate].
Qed.

Lemma try_catch_inv (A : Type) (m : M A) (h : JsString -> M A) (w w' : World)
    (r : Res A) :
  try_catch m h w = (r, w') ->
  (exists a, r = Ret a /\ m w = (Ret a, w'))
  \/ (exists e w1, m w = (Raise e, w1) /\ h e w1 = (r, w')).
Proof.
  unfold try_catch. destruct (m w) as [[a|e] w1]; intros Hrun.
  - left. exists a. inversion Hrun; subst. split; reflexivity.
  - right. eauto.
Qed.

Lemma read_ret_inv (A : Type) (stmt : Db -> Res A) (w w' : World) (a : A) :
  read stmt w = (Ret a, w') -> stmt (w_db w) = Ret a /\ w_db w' = w_db w.
Proof.
  unfold read. destruct (w_faults w) as [|[] ?]; intros Hrun;
    inversion Hrun; subst; split; reflexivity || assumption.
Qed.

Lemma write_ret_inv (stmt : Db -> Res Db) (w w' : World) (u : unit) :
  write stmt w = (Ret u, w') -> stmt (w_db w) = Ret (w_db w').
Proof.
  unfold write. destruct (w_faults w) as [|[] ?]; intros Hrun;
    try discriminate; destruct (stmt (w_db w)); inversion Hrun; subst; reflexivity.
Qed.

(** A recording that returns was made for an integer user identifier and,
    when the amount is a whole number of hundredths, has added the amount to
    what is stored for that user and day. *)
Lemma recordMinutes_inv (userId : JsVal) (day : Day) (amount : Z) (w w' : World)
    (u : unit) :
  NoDup (map us_id (usage (w_db w))) ->
  recordMinutes userId day (inject_Z amount) w = (Ret u, w') ->
  exists uid, sql_int userId = SqlVal uid
    /\ stored uid day (w_db w') = stored uid day (w_db w) + amount.
Proof.
  intros Hkey Hrun. unfold recordMinutes in Hrun.
  apply bind_ret_inv in Hrun as (existing & w1 & Hsel & Hwrite).
  apply read_ret_inv in Hsel as [Hsel Hdb1].
  unfold select_existing, where_int in Hsel.
  destruct (sql_int userId) as [|uid|] eqn:Hid; [| |discriminate].
  - inversion Hsel; subst existing. apply write_ret_inv in Hwrite.
    unfold insert_usage in Hwrite. destruct (numeric_10_2 _); discriminate.
  - exists uid. split; [reflexivity|].
    inversion Hsel as [Hrows]. clear Hsel.
    pose proof (recorded_stored uid day amount (w_db w) Hkey) as Hsum.
    unfold recorded in Hsum. rewrite Hrows in Hsum. rewrite <- Hsum.
    destruct existing as [|row rest]; apply write_ret_inv in Hwrite;
      rewrite Hdb1 in Hwrite.
    + unfold insert_usage in Hwrite.
      destruct (numeric_10_2 (inject_Z amount)) as [v|e] eqn:Hv; [|discriminate].
      apply numeric_10_2_inv in Hv as [-> _]. rewrite round_half_away_Z in Hwrite.
      destruct (negb (0 <=? amount)); [discriminate|].
      destruct (existsb (on_day uid day) (usage (w_db w))); [discriminate|].
      destruct (negb (references_user uid (w_db w))); [discriminate|].
      injection Hwrite as Hdb. rewrite <- Hdb. reflexivity.
    + unfold update_add_minutes in Hwrite.
      destruct (update_where_id _ _ (usage (w_db w))) as [rows|e] eqn:Hupd;
        [|discriminate].
      apply update_where_id_inv in Hupd as ->.
      injection Hwrite as Hdb. rewrite <- Hdb. reflexivity.
Qed.

Lemma run_keeps (A : Type) (m : M A) (w w' : World) (r : Res A) :
  keeps_db m -> m w = (r, w') -> w_db w' = w_db w.
Proof. intros Hm Hrun. specialize (Hm w). now rewrite Hrun in Hm. Qed.

(** The conversation check compares the monthly sum with the limit in force. *)
Lemma admitConversation_inv (env : Env) (userId : JsVal) (w w' : World)
    (check : Admission) :
  admitConversation env userId w = (Ret check, w') ->
  exists monthly limits,
    select_total_since (sql_int userId) (firstDayOfMonth env) (w_db w) = Ret monthly
    /\ select_minutes_limit (sql_int userId) (w_db w) = Ret limits
    /\ check = {| admitted := negb (num_ge (Cent monthly)
                                      (int (minutes_limit_or_default limits)));
                  used := Cent monthly;
                  limit := int (minutes_limit_or_default limits) |}
    /\ w_db w' = w_db w.
Proof.
  intros Hrun. pose proof (run_keeps _ _ _ _ _ (keeps_admitConversation env userId) Hrun).
  unfold admitConversation in Hrun.
  apply bind_ret_inv in Hrun as (monthly & w1 & Hm & Hrun).
  apply bind_ret_inv in Hrun as (limits & w2 & Hl & Hrun).
  apply bind_ret_inv in Hrun as (? & w3 & _ & Hrun).
  apply read_ret_inv in Hm as [Hm Hdb1]. apply read_ret_inv in Hl as [Hl Hdb2].
  rewrite Hdb1 in Hl. inversion Hrun; subst. exists monthly, limits. auto.
Qed.

(** The TTS check compares the count of the day with the limit in force. *)
Lemma admitTTS_inv (env : Env) (userId : JsVal) (w w' : World) (check : Admission) :
  admitTTS env userId w = (Ret check, w') ->
  exists count,
    select_tts_count (sql_int userId) (today env) (w_db w) = Ret count
    /\ check = {| admitted := negb (num_ge (int count)
                       (tts_daily_limit (select_tts_daily_limit (w_db w))));
                  used := int count;
                  limit := tts_daily_limit (select_tts_daily_limit (w_db w)) |}
    /\ w_db w' = w_db w.
Proof.
  intros Hrun. pose proof (run_keeps _ _ _ _ _ (keeps_admitTTS env userId) Hrun).
  unfold admitTTS in Hrun.
  apply bind_ret_inv in Hrun as (rows & w1 & Hs & Hrun).
  apply bind_ret_inv in Hrun as (count & w2 & Hc & Hrun).
  apply read_ret_inv in Hs as [Hs Hdb1]. apply read_ret_inv in Hc as [Hc Hdb2].
  rewrite Hdb1 in Hc. inversion Hs; subst rows. inversion Hrun; subst.
  exists count. auto.
Qed.

Lemma authenticate_next (env : Env) (req : Request) (user : gmap string JsVal)
    (next : gmap string JsVal -> M Response) :
  authenticated env req user -> authenticate env req next = next user.
Proof. intros (token & Hauth & Hverify). unfold authenticate. now rewrite Hauth, Hverify. Qed.

Lemma authenticate_ok_inv (env : Env) (req : Request)
    (next : gmap string JsVal -> M Response) (w w' : World) (resp : Response) :
  authenticate env req next w = (Ret resp, w') -> status resp = 200 ->
  exists user, authenticated env req user /\ next user w = (Ret resp, w').
Proof.
  unfold authenticate, authenticated. intros Hrun Hok.
  destruct (authorization req) as [token|].
  - destruct (jwt_verify token (jwt_secret env) (now env)) as [user|] eqn:Hverify.
    + exists user. eauto.
    + inversion Hrun; subst. discriminate.
  - inversion Hrun; subst. discriminate.
Qed.

(** ** The cost of a turn *)

Lemma estimatedMinutes_closed (n : Z) : estimatedMinutes n = (4 * n + 3) / 6.
Proof.
  unfold estimatedMinutes, Math_round, Qfloor. simpl.
  change (Z.pos (1 * 150 * 1 * 2)) with (6 * 50).
  replace (n * 1 * 100 * 2 + 1 * Z.pos (1 * 150 * 1)) with ((4 * n + 3) * 50) by lia.
  rewrite Z.div_mul_cancel_r by lia. reflexivity.
Qed.


(** A successful turn: what the handler went through. *)
Lemma post_chat_ok_inv (env : Env) (text : JsString) (req : Request)
    (w w' : World) (resp : Response) :
  post_chat env (Answer (Some text)) req w = (Ret resp, w') ->
  status resp = 200 ->
  exists user w1 u,
    authenticated env req user
    /\ w_db w1 = w_db w
    /\ recordMinutes (prop user "userId") (today env)
                     (inject_Z (estimatedMinutes (wordCount text))) w1 = (Ret u, w')
    /\ resp = res_json 200 [("response", JStr text);
                            ("minutes_used",
                             JNum (Cent (estimatedMinutes (wordCount text))))].
Proof.
  intros Hrun Hok. unfold post_chat in Hrun.
  apply authenticate_ok_inv in Hrun as (user & Hauth & Hrun); [|exact Hok].
  exists user.
  destruct (truthy (prop (req_body req) "message")); simpl in Hrun;
    [|inversion Hrun; subst; discriminate].
  apply bind_ret_inv in Hrun as ([] & w0 & Hconn & Hrun).
  apply read_ret_inv in Hconn as [_ Hdb0].
  apply try_catch_inv in Hrun as [(r & Hr & Hrun)|(e & w1 & _ & Hrun)].
  - injection Hr as <-.
    apply bind_ret_inv in Hrun as (check & w1 & Hadmit & Hrun).
    apply (run_keeps _ _ _ _ _ (keeps_admitConversation env _)) in Hadmit.
    destruct (admitted check); simpl in Hrun;
      [|inversion Hrun; subst; discriminate].
    apply bind_ret_inv in Hrun as (? & w2 & Hmat & Hrun).
    apply read_ret_inv in Hmat as [_ Hdb2].
    destruct (prop (req_body req) "conversation_history") as [| | | | |[]|];
      try discriminate;
      apply bind_ret_inv in Hrun as (u & w3 & Hrec & Hret);
      inversion Hret; subst; exists w2, u; repeat split; congruence.
  - apply bind_ret_inv in Hrun as (? & w2 & _ & Hrun).
    inversion Hrun; subst. discriminate.
Qed.

(** ** Pieces and words *)







(** ** Denials and failures *)

Lemma returns_ret (A : Type) (a : A) : returns (ret a).
Proof. intros w. unfold ret. eauto. Qed.





Lemma connect_calm (db : Db) (log : list JsString) :
  connect (calm db log) = (Ret tt, calm db log).
Proof. reflexivity. Qed.








Lemma post_tts_denied (env : Env) (provider : Synthesis) (req : Request)
    (user : gmap string JsVal) (check : Admission) (w w0 w1 : World) :
  authenticated env req user ->
  truthy (prop (req_body req) "text") = true ->
  connect w = (Ret tt, w0) ->
  admitTTS env (prop user "id") w0 = (Ret check, w1) ->
  admitted check = false ->
  post_tts env provider req w = (Ret (daily_limit_reached check), w1).
Proof.
  intros Hauth Htext Hconn Hadmit Hdenied. unfold post_tts.
  rewrite (authenticate_next env req user _ Hauth). cbv zeta.
  unfold bind at 1. rewrite Hconn. rewrite Htext. simpl.
  unfold try_catch, bind. rewrite Hadmit, Hdenied. reflexivity.
Qed.





(** A provider failure, once the request is admitted, ends in the [catch]. *)
Lemma post_tts_provider_failure (env : Env) (provider : Synthesis) (req : Request)
    (user : gmap string JsVal) (check : Admission) (w w0 w1 : World) :
  authenticated env req user ->
  truthy (prop (req_body req) "text") = true ->
  connect w = (Ret tt, w0) ->
  admitTTS env (prop user "id") w0 = (Ret check, w1) ->
  admitted check = true ->
  (forall data, provider <> Audio (Some data)) ->
  exists w', post_tts env provider req w = (Ret tts_failed, w').
Proof.
  intros Hauth Htext Hconn Hadmit Hpass Hfail. unfold post_tts.
  rewrite (authenticate_next env req user _ Hauth). cbv zeta.
  unfold bind at 1. rewrite Hconn. rewrite Htext. simpl.
  unfold try_catch, bind at 1. rewrite Hadmit, Hpass. simpl.
  destruct (prop (req_body req) "text"); try (eexists; reflexivity).
  destruct (google_api_key env); simpl; [|eexists; reflexivity].
  destruct provider as [|[]|[data|]|]; try (eexists; reflexivity).
  - exfalso. now apply (Hfail data).
  - unfold bind. destruct (trackTTSUsage_returns env (prop user "id") w1) as (w' & ->).
    eexists. reflexivity.
Qed.

(** C7.  [POST /api/tts] tells the caller to fall back in both failure cases.
    A request denied by the pre-flight check is answered 429, with
    [usedToday], [dailyLimit] and [fallbackToLocal: true]; an admitted
    request whose provider call fails is answered 500 with
    [fallbackToLocal: true]; the two statuses differ.  [w0] is the world in
    which the handler has its connection. *)
Theorem tts_failure_falls_back (env : Env) (provider : Synthesis) (req : Request)
    (user : gmap string JsVal) (check : Admission) (w w0 w1 : World) :
  authenticated env req user ->
  truthy (prop (req_body req) "text") = true ->
  connect w = (Ret tt, w0) ->
  admitTTS env (prop user "id") w0 = (Ret check, w1) ->
  (admitted check = false ->
     exists resp,
       post_tts env provider req w = (Ret resp, w1)
       /\ status resp = 429
       /\ body resp !! "fallbackToLocal" = Some (JBool true)
       /\ body resp !! "usedToday" = Some (JNum (used check))
       /\ body resp !! "dailyLimit" = Some (JNum (limit check)))
  /\ (admitted check = true -> (forall data, provider <> Audio (Some data)) ->
     exists resp w',
       post_tts env provider req w = (Ret resp, w')
       /\ status resp = 500
       /\ body resp !! "fallbackToLocal" = Some (JBool true))
  /\ status (daily_limit_reached check) <> status tts_failed.
Proof.
  intros Hauth Htext Hconn Hadmit. repeat split.
  - intros Hdenied. exists (daily_limit_reached check).
    split; [now apply (post_tts_denied env provider req user check w w0)|].
    apply admitTTS_inv in Hadmit as (count & _ & -> & _). simpl in *.
    destruct (tts_daily_limit _) as [|l]; [discriminate|].
    repeat split; reflexivity.
  - intros Hpass Hfail.
    destruct (post_tts_provider_failure env provider req user check w w0 w1
                Hauth Htext Hconn Hadmit Hpass Hfail) as (w' & Hrun).
    exists tts_failed, w'. repeat split; try reflexivity. exact Hrun.
  - discriminate.
Qed.

Lemma tts_failure_falls_back_witness :
  let w := calm (Scenario.store [] (Scenario.calls_today 7 15)) [] in
  let user : gmap string JsVal := {[ "id" := JNum (int 7) ]} in
  let req := Scenario.request (Signed user (jwt_secret Scenario.env))
               [("text", JStr Scenario.hello)] in
  let check := {| admitted := false; used := int 15; limit := int 15 |} in
  authenticated Scenario.env req user
  /\ truthy (prop (req_body req) "text") = true
  /\ connect w = (Ret tt, w)
  /\ admitTTS Scenario.env (prop user "id") w = (Ret check, w)
  /\ exists resp,
       post_tts Scenario.env (Audio (Some ∅)) req w = (Ret resp, w)
       /\ status resp = 429
       /\ body resp !! "fallbackToLocal" = Some (JBool true)
       /\ body resp !! "usedToday" = Some (JNum (int 15))
       /\ body resp !! "dailyLimit" = Some (JNum (int 15)).
Proof.
  intros w user req check.
  assert (authenticated Scenario.env req user) as Hauth
    by (eexists; split; reflexivity).
  assert (truthy (prop (req_body req) "text") = true) as Htext by reflexivity.
  assert (connect w = (Ret tt, w)) as Hconn by reflexivity.
  assert (admitTTS Scenario.env (prop user "id") w = (Ret check, w)) as Hadmit
    by (vm_compute; reflexivity).
  repeat split; try assumption.
  apply (tts_failure_falls_back Scenario.env (Audio (Some ∅)) req user check w w w
           Hauth Htext Hconn Hadmit).
  reflexivity.
Defined.

(** * Where the code departs from the specification *)

(** ** The identifier of the TTS endpoints *)

Lemma verify_issued (env : Env) (u : UserRow) (email : JsString) :
  jwt_verify (issue_token env u email) (jwt_secret env) (now env)
  = Some (<["iat" := JNum (int (now env))]>
            (<["exp" := JNum (int (now env + 2592000))]>
               {[ "userId" := JNum (int (u_id u));
                  "email" := JStr email;
                  "role" := JStr (role_name (u_role u)) ]})).
Proof.
  unfold issue_token, jwt_sign, jwt_verify.
  rewrite bool_decide_eq_true_2 by reflexivity.
  rewrite lookup_insert_ne by done. rewrite lookup_insert_eq.
  unfold num_ge, int.
  destruct (Z.leb_spec (100 * (now env + 2592000)) (100 * now env)); [lia|].
  reflexivity.
Qed.

(** C10.  The payload signed at login and registration carries [userId] and no
    [id].  After [authenticate], [req.user.userId] is the identifier of the
    user and is bound as such in the queries of the minutes endpoints, while
    [req.user.id], which the TTS endpoints read, is [undefined] and is bound
    as [NULL]: the two are not the same identifier. *)
Theorem login_token_has_no_id (env : Env) (u : UserRow) (email : JsString) :
  exists user,
    jwt_verify (issue_token env u email) (jwt_secret env) (now env) = Some user
    /\ prop user "userId" = JNum (int (u_id u))
    /\ sql_int (prop user "userId") = SqlVal (u_id u)
    /\ prop user "id" = JUndefined
    /\ sql_int (prop user "id") = SqlNull
    /\ sql_int (prop user "id") <> sql_int (prop user "userId").
Proof.
  eexists. split; [apply verify_issued|].
  repeat split; try reflexivity.
  - change (sql_int (JNum (int (u_id u))) = SqlVal (u_id u)). apply sql_int_int.
  - change (SqlNull <> sql_int (JNum (int (u_id u)))). rewrite sql_int_int. discriminate.
Qed.

(** With [NULL] for the user the insertion is refused, and [trackTTSUsage]
    only logs. *)
Lemma keeps_trackTTSUsage_null (env : Env) (userId : JsVal) :
  sql_int userId = SqlNull -> keeps_db (trackTTSUsage env userId).
Proof.
  intros Hnull w. unfold trackTTSUsage, try_catch, write. rewrite Hnull. simpl.
  destruct (w_faults w) as [|[] ?]; reflexivity.
Qed.

(** A request that carries a login token never adds to the TTS ledger. *)
Lemma post_tts_after_login (env : Env) (u : UserRow) (email : JsString)
    (provider : Synthesis) (fields : gmap string JsVal) :
  keeps_db (post_tts env provider
              {| authorization := Some (issue_token env u email); req_body := fields |}).
Proof.
  unfold post_tts, authenticate. cbn [authorization req_body].
  rewrite verify_issued. cbv zeta.
  effects.
  all: intros w; unfold write;
    change (sql_int (prop _ "id")) with SqlNull; simpl;
    destruct (w_faults w) as [|[] ?]; reflexivity.
Qed.

(** With a login token the count of the day is taken over no row at all. *)
Lemma admitTTS_after_login (env : Env) (u : UserRow) (email : JsString)
    (user : gmap string JsVal) (db : Db) (log : list JsString) :
  jwt_verify (issue_token env u email) (jwt_secret env) (now env) = Some user ->
  admitTTS env (prop user "id") (calm db log)
  = (Ret {| admitted := negb (num_ge (int 0) (tts_daily_limit (select_tts_daily_limit db)));
            used := int 0;
            limit := tts_daily_limit (select_tts_daily_limit db) |},
     calm db log).
Proof.
  rewrite verify_issued. intros [= <-]. reflexivity.
Qed.

(** C2 (the code departs).  Anna is logged in and has made 15 premium calls
    today; no [tts_daily_limit] is configured, so the limit is 15.  Her next
    call is admitted and answered 200 with [usedToday: 1], and leaves the
    ledger as it was: the count is taken for [req.user.id], which her token
    does not carry. *)
Theorem sixteenth_call_admitted :
  let w := calm (Scenario.store [] (Scenario.calls_today 7 15)) [] in
  let req := Scenario.request (Scenario.token_of Scenario.anna)
               [("text", JStr Scenario.hello)] in
  let outcome := post_tts Scenario.env (Audio (Some ∅)) req w in
  select_tts_count (SqlVal (u_id Scenario.anna)) (today Scenario.env) (w_db w) = Ret 15
  /\ tts_daily_limit (select_tts_daily_limit (w_db w)) = int 15
  /\ status <$> answer outcome = Some 200
  /\ (answer outcome ≫= fun resp => body resp !! "usedToday") = Some (JNum (int 1))
  /\ tts_usage (w_db (after outcome)) = tts_usage (w_db w)
  /\ w_log (after outcome) = [lit "Track TTS usage error:"].
Proof. vm_compute. repeat split; reflexivity. Qed.

(** However many premium calls a logged-in user makes, each one is admitted
    and none is counted. *)
Lemma tts_limit_never_reached (env : Env) (u : UserRow) (email text : JsString)
    (data : gmap string JsVal) (n : nat) :
  forall (db : Db) (log : list JsString),
  google_api_key env = true -> text <> [] ->
  api_configs db !! "tts_daily_limit" = None ->
  exists log',
    serve (post_tts env (Audio (Some data))
             {| authorization := Some (issue_token env u email);
                req_body := {[ "text" := JStr text ]} |})
          n (calm db log)
    = (repeat (Some 200) n, calm db log').
Proof.
  intros db log Hkey Hne Hconf. revert log.
  induction n as [|n IH]; intros log; [exists log; reflexivity|].
  assert (post_tts env (Audio (Some data))
            {| authorization := Some (issue_token env u email);
               req_body := {[ "text" := JStr text ]} |} (calm db log)
          = (Ret (res_json 200 [("audioContent", prop data "audioContent");
                                ("usedToday", JNum (int 1));
                                ("dailyLimit", JNum (int 15))]),
             calm db (log ++ [lit "Track TTS usage error:"]))) as Hrun.
  { unfold post_tts, authenticate. cbn [authorization req_body].
    rewrite verify_issued. cbv zeta.
    change (prop {[ "text" := JStr text ]} "text") with (JStr text).
    change (prop _ "id") with JUndefined.
    destruct text as [|c text]; [contradiction|].
    unfold try_catch, bind, admitTTS, trackTTSUsage, read, write, calm,
      select_tts_daily_limit. simpl. rewrite Hconf, Hkey. reflexivity. }
  destruct (IH (log ++ [lit "Track TTS usage error:"])) as (log' & Hrest).
  exists log'. cbn [serve]. rewrite Hrun. unfold after, answer. cbn [fst snd].
  rewrite Hrest. reflexivity.
Qed.

(** The usage report of a logged-in user with 15 calls today: none used. *)
Example tts_usage_report :
  let w := calm (Scenario.store [] (Scenario.calls_today 7 15)) [] in
  answer (get_tts_usage Scenario.env
            (Scenario.request (Scenario.token_of Scenario.anna) []) w)
  = Some (res_json 200 [("dailyLimit", JNum (int 15)); ("usedToday", JNum (int 0));
                        ("remaining", JNum (int 15)); ("canUsePremium", JBool true)]).
Proof. vm_compute. reflexivity. Qed.

(** ** The limit of a user whose allowance is zero *)

(** C3 (the code departs).  The allowance of this user is 0 and 5 minutes are
    recorded for the month, so the total has reached the limit; the check
    admits the user and reports a limit of 120, because [0 || 120] is 120. *)
Theorem zero_limit_admitted :
  let db := Scenario.store [Scenario.row 1 8 19670 500] [] in
  select_minutes_limit (SqlVal (u_id Scenario.blocked)) db = Ret [Some 0]
  /\ select_total_since (SqlVal (u_id Scenario.blocked))
                        (firstDayOfMonth Scenario.env) db = Ret 500
  /\ admitConversation Scenario.env (JNum (int (u_id Scenario.blocked))) (calm db [])
     = (Ret {| admitted := true; used := Cent 500; limit := int 120 |}, calm db []).
Proof. vm_compute. repeat split; reflexivity. Qed.

(** For an allowance other than 0 the check is the comparison of the
    specification: denied exactly when the monthly total has reached the
    allowance, and the denial carries both with status 429. *)
Lemma admitConversation_nonzero_limit (env : Env) (userId : JsVal) (w w' : World)
    (check : Admission) (allowance : Z) (others : list (option Z)) :
  admitConversation env userId w = (Ret check, w') ->
  select_minutes_limit (sql_int userId) (w_db w) = Ret (Some allowance :: others) ->
  allowance <> 0 ->
  exists monthly,
    select_total_since (sql_int userId) (firstDayOfMonth env) (w_db w) = Ret monthly
    /\ (admitted check = false <-> 100 * allowance <= monthly)
    /\ used check = Cent monthly
    /\ limit check = int allowance
    /\ status (monthly_limit_reached check) = 429
    /\ body (monthly_limit_reached check) !! "minutes_used" = Some (JNum (Cent monthly))
    /\ body (monthly_limit_reached check) !! "minutes_limit" = Some (JNum (int allowance)).
Proof.
  intros Hrun Hlimit Hnz.
  apply admitConversation_inv in Hrun as (monthly & limits & Hm & Hl & -> & _).
  rewrite Hlimit in Hl. injection Hl as <-. exists monthly.
  unfold minutes_limit_or_default.
  destruct (Z.eqb_spec allowance 0); [contradiction|].
  split; [exact Hm|]. split; [|repeat split; reflexivity].
  simpl. rewrite negb_false_iff, Z.leb_le. reflexivity.
Qed.

(** Scenario A of the specification: the allowance is 120 and 118.50 minutes
    are recorded; a turn of 300 words costs 2 minutes and is admitted; the
    next one is denied with 120.50 used of 120. *)
Example scenario_A :
  let w := calm (Scenario.store [Scenario.row 1 7 19670 11850] []) [] in
  let req := Scenario.request (Scenario.token_of Scenario.anna)
               [("message", JStr (lit "Hi"))] in
  let first := post_chat Scenario.env (Answer (Some (Scenario.words 299))) req w in
  let second := post_chat Scenario.env (Answer (Some Scenario.hello)) req (after first) in
  status <$> answer first = Some 200
  /\ (answer first ≫= fun resp => body resp !! "minutes_used") = Some (JNum (int 2))
  /\ answer second
     = Some (monthly_limit_reached
               {| admitted := false; used := Cent 12050; limit := int 120 |}).
Proof. vm_compute. repeat split; reflexivity. Qed.

(** ** Administrators *)


Lemma select_by_id (us : list UserRow) (u : UserRow) :
  NoDup (map u_id us) -> u ∈ us ->
  List.filter (fun x => u_id x =? u_id u) us = [u].
Proof.
  induction us as [|x us IH]; intros Hkey Hin; [now apply elem_of_nil in Hin|].
  simpl in *. inversion Hkey as [|? ? Hfresh Hkey']; subst.
  assert (forall y, y ∈ us -> u_id y <> u_id x) as Hother.
  { intros y Hy Heq. apply Hfresh. rewrite <- Heq. now apply list_elem_of_fmap_2. }
  apply elem_of_cons in Hin as [->|Hin].
  - rewrite Z.eqb_refl. f_equal.
    clear IH Hkey. induction us as [|y us IH]; [reflexivity|]. simpl.
    destruct (Z.eqb_spec (u_id y) (u_id x)) as [Heq|_].
    + exfalso. apply (Hother y); [left | exact Heq].
    + apply IH.
      * intros Hx. apply Hfresh. now right.
      * now inversion Hkey'.
      * intros z Hz. apply Hother. now right.
  - destruct (Z.eqb_spec (u_id x) (u_id u)) as [Heq|_].
    + exfalso. now apply (Hother u Hin).
    + now apply IH.
Qed.



(** ** A recording that fails *)

(** In [POST /api/tts] the recording is wrapped in its own [try]/[catch]: once
    the provider has answered, the caller gets the audio whatever happens to
    the recording. *)
Lemma post_tts_delivers (env : Env) (req : Request) (user data : gmap string JsVal)
    (text : JsString) (check : Admission) (w w0 w1 : World) :
  authenticated env req user ->
  prop (req_body req) "text" = JStr text -> text <> [] ->
  connect w = (Ret tt, w0) ->
  admitTTS env (prop user "id") w0 = (Ret check, w1) ->
  admitted check = true ->
  google_api_key env = true ->
  exists w',
    post_tts env (Audio (Some data)) req w
    = (Ret (res_json 200 [("audioContent", prop data "audioContent");
                          ("usedToday", JNum (num_add (used check) (int 1)));
                          ("dailyLimit", JNum (limit check))]), w').
Proof.
  intros Hauth Htext Hne Hconn Hadmit Hpass Hkey. unfold post_tts.
  rewrite (authenticate_next env req user _ Hauth). cbv zeta.
  unfold bind at 1. rewrite Hconn. rewrite Htext.
  destruct text as [|c text]; [contradiction|]. simpl.
  unfold try_catch, bind at 1. rewrite Hadmit, Hpass, Hkey. simpl.
  unfold bind.
  destruct (trackTTSUsage_returns env (prop user "id") w1) as (w' & ->).
  eexists. reflexivity.
Qed.

(** In [POST /api/chat] the recording runs inside the [try] of the whole
    handler: when it raises, the [catch] answers 500 and the text that the
    provider returned is dropped. *)
Lemma post_chat_drops_answer (env : Env) (req : Request) (user : gmap string JsVal)
    (text e : JsString) (check : Admission) (w w0 w1 w2 : World) :
  authenticated env req user ->
  truthy (prop (req_body req) "message") = true ->
  prop (req_body req) "conversation_history" = JUndefined ->
  connect w = (Ret tt, w0) ->
  admitConversation env (prop user "userId") w0 = (Ret check, w1) ->
  admitted check = true ->
  hd false (w_faults w1) = false ->
  recordMinutes (prop user "userId") (today env)
    (inject_Z (estimatedMinutes (wordCount text)))
    {| w_db := w_db w1; w_faults := tail (w_faults w1); w_log := w_log w1 |}
  = (Raise e, w2) ->
  post_chat env (Answer (Some text)) req w
  = (Ret (failure 500 "Errore durante la chat"),
     {| w_db := w_db w2; w_faults := w_faults w2;
        w_log := w_log w2 ++ [lit "Chat error:"] |}).
Proof.
  intros Hauth Hmsg Hhist Hconn Hadmit Hpass Hcalm Hrec. unfold post_chat.
  rewrite (authenticate_next env req user _ Hauth), Hmsg, Hhist. simpl.
  unfold bind at 1. rewrite Hconn.
  unfold try_catch, bind at 1. rewrite Hadmit, Hpass. simpl.
  unfold bind at 1, read, select_materials.
  destruct (w_faults w1) as [|[] faults]; simpl in *; try discriminate;
    unfold bind at 1; rewrite Hrec; reflexivity.
Qed.

(** C8 (the code departs).  Anna's turn gets its connection, is admitted, and
    the provider answers; the store then fails on the fifth query of the
    request, the [SELECT] of the recording.  The caller gets 500 and no text,
    and the console gets [Chat error:].  The same fault in [POST /api/tts]
    (third query, the [INSERT] of the recording) is logged and the caller
    gets 200. *)
Theorem recording_fault_breaks_chat :
  let fault_at (n : nat) := false :: repeat false n ++ [true] in
  let chat :=
    post_chat Scenario.env (Answer (Some Scenario.hello))
      (Scenario.request (Scenario.token_of Scenario.anna) [("message", JStr (lit "Hi"))])
      {| w_db := Scenario.store [] []; w_faults := fault_at 4%nat; w_log := [] |} in
  let tts :=
    post_tts Scenario.env (Audio (Some {[ "audioContent" := JStr (lit "SUQz") ]}))
      (Scenario.request (Signed {[ "id" := JNum (int 7) ]} (jwt_secret Scenario.env))
                        [("text", JStr Scenario.hello)])
      {| w_db := Scenario.store [] []; w_faults := fault_at 2%nat; w_log := [] |} in
  answer chat = Some (failure 500 "Errore durante la chat")
  /\ (answer chat ≫= fun resp => body resp !! "response") = None
  /\ w_log (after chat) = [lit "Chat error:"]
  /\ status <$> answer tts = Some 200
  /\ (answer tts ≫= fun resp => body resp !! "audioContent") = Some (JStr (lit "SUQz"))
  /\ w_log (after tts) = [lit "Track TTS usage error:"].
Proof. vm_compute. repeat split; reflexivity. Qed.

(** ** Two recordings at once *)

(** A request that is served alone takes the two steps of [recordMinutes]. *)
Lemma recorder_alone (userId : JsVal) (day : Day) (amount : Q) (db : Db)
    (log : list JsString) :
  let '(r1, db1) := recorder_step (Selecting userId day amount) db in
  let '(r2, db2) := recorder_step r1 db1 in
  exists outcome,
    r2 = Finished outcome
    /\ recordMinutes userId day amount (calm db log) = (outcome, calm db2 log).
Proof.
  unfold recordMinutes, bind, read, write, calm. simpl.
  destruct (select_existing (sql_int userId) day db) as [rows|e]; simpl;
    [|eexists; split; reflexivity].
  destruct rows as [|row rest]; simpl;
    match goal with
    | |- context [match ?stmt db with _ => _ end] => destruct (stmt db)
    end; eexists; split; reflexivity.
Qed.

(** Alone, for a user that exists and a whole number of hundredths that the
    column can hold, the two statements of the source do what the primitive
    of the specification does. *)
Lemma recordMinutes_is_upsert (uid : Z) (day : Day) (amount : Z) (db : Db)
    (log : list JsString) :
  usage_ok db -> references_user uid db = true -> 0 <= amount ->
  stored uid day db + amount < 10000000000 ->
  recordMinutes (JNum (int uid)) day (inject_Z amount) (calm db log)
  = (Ret tt, calm (upsertAddMinutes uid day amount db) log).
Proof.
  intros Hok Huser Hamount Hfit.
  rewrite (recordMinutes_calm uid day (inject_Z amount) db log Hok Huser);
    rewrite ?round_half_away_Z; try assumption; [reflexivity|].
  unfold Qle. simpl. lia.
Qed.

Lemma outstanding_served (pending : list (option Z)) (i : nat) (amount : Z) :
  pending !! i = Some (Some amount) ->
  outstanding (<[i := None]> pending) = outstanding pending - amount.
Proof.
  revert i. induction pending as [|p pending IH]; intros [|i] Hi;
    try discriminate; simpl in *.
  - injection Hi as ->. simpl. lia.
  - rewrite (IH i Hi). lia.
Qed.

Lemma served_nonneg (pending : list (option Z)) (i : nat) :
  Forall (fun p => 0 <= default 0 p) pending ->
  Forall (fun p => 0 <= default 0 p) (<[i := None]> pending).
Proof. intros Hall. apply Forall_insert; [exact Hall | simpl; lia]. Qed.

(** With the primitive of the specification no interleaving loses an update:
    what is stored and what is still to be recorded always add up to the
    same, so once every request is served the stored value has grown by the
    sum of all amounts. *)
Lemma upserts_lose_nothing (uid : Z) (day : Day) (schedule : list nat) :
  forall (pending : list (option Z)) (db : Db),
  usage_ok db -> Forall (fun p => 0 <= default 0 p) pending ->
  let '(pending', db') := interleave_upserts uid day schedule pending db in
  stored uid day db' + outstanding pending' = stored uid day db + outstanding pending.
Proof.
  induction schedule as [|i rest IH]; intros pending db Hok Hpos; simpl; [reflexivity|].
  destruct (pending !! i) as [[amount|]|] eqn:Hi; try (apply IH; assumption).
  assert (0 <= amount) as Hamount.
  { rewrite List.Forall_forall in Hpos.
    apply (Hpos (Some amount)). apply list_elem_of_In.
    now apply (list_elem_of_lookup_2 _ i). }
  specialize (IH (<[i := None]> pending) (upsertAddMinutes uid day amount db)
                 (recorded_ok uid day amount db Hok Hamount)
                 (served_nonneg pending i Hpos)).
  destruct (interleave_upserts _ _ _ _ _) as [pending' db'].
  rewrite IH, (outstanding_served pending i amount Hi).
  unfold upsertAddMinutes. rewrite recorded_stored by apply Hok. lia.
Qed.

Example three_upserts_any_order :
  let db := Scenario.store [] [] in
  let '(pending, db') :=
    interleave_upserts 7 19675 [2; 0; 2; 1]%nat [Some 100; Some 100; Some 100] db in
  pending = [None; None; None] /\ stored 7 19675 db' = 300.
Proof. vm_compute. split; reflexivity. Qed.

(** C9 (the code departs).  Two requests record one minute each for the same
    user on a day without a row.  When both [SELECT]s are served before the
    first [INSERT], the second [INSERT] breaks [unique_user_date] and raises:
    one minute is stored, not two.  Served one after the other, the same two
    requests store two minutes. *)
Theorem concurrent_recordings_lose_one :
  let request := Selecting (JNum (int 7)) 19675 100 in
  let db := Scenario.store [] [] in
  let '(raced, db_raced) := interleave [0; 1; 0; 1]%nat [request; request] db in
  let '(queued, db_queued) := interleave [0; 0; 1; 1]%nat [request; request] db in
  stored 7 19675 db_raced = 100
  /\ raced = [Finished (Ret tt); Finished (Raise unique_violation)]
  /\ stored 7 19675 db_queued = 200
  /\ queued = [Finished (Ret tt); Finished (Ret tt)].
Proof. vm_compute. repeat split; reflexivity. Qed.

(** * Further properties of the code *)

(** ** Words and cost *)

Lemma split_go_bounds (s : JsString) :
  forall (in_run : bool) (cur : JsString),
  (1 <= length (split_go in_run cur s) <= length s + 1)%nat.
Proof.
  induction s as [|c s IH]; intros in_run cur; simpl; [lia|].
  destruct (is_js_space c).
  - destruct in_run; simpl; [specialize (IH true cur) | specialize (IH true [])]; lia.
  - specialize (IH false (cur ++ [c])). lia.
Qed.

Lemma wordCount_bounds (text : JsString) :
  1 <= wordCount text <= Z.of_nat (length text) + 1.
Proof.
  unfold wordCount, split_ws. pose proof (split_go_bounds text false []). lia.
Qed.

Lemma estimatedMinutes_monotone (m n : Z) :
  m <= n -> estimatedMinutes m <= estimatedMinutes n.
Proof.
  intros Hle. rewrite !estimatedMinutes_closed.
  apply Z.div_le_mono; lia.
Qed.

(** X1.  No successful turn is free.  Whatever the provider's text, even the
    empty one, a turn answered 200 adds at least one hundredth of a minute to
    what is stored for the caller and the day, and never more than the
    hundredth nearest to [(length + 1) / 150]. *)
Theorem successful_turn_is_charged (env : Env) (text : JsString) (req : Request)
    (w w' : World) (resp : Response) :
  NoDup (map us_id (usage (w_db w))) ->
  post_chat env (Answer (Some text)) req w = (Ret resp, w') ->
  status resp = 200 ->
  exists user uid cost,
    authenticated env req user
    /\ sql_int (prop user "userId") = SqlVal uid
    /\ stored uid (today env) (w_db w') = stored uid (today env) (w_db w) + cost
    /\ 1 <= cost <= estimatedMinutes (Z.of_nat (length text) + 1).
Proof.
  intros Hkey Hrun Hok.
  destruct (post_chat_ok_inv env text req w w' resp Hrun Hok)
    as (user & w1 & u & Hauth & Hdb & Hrec & _).
  rewrite <- Hdb in Hkey.
  destruct (recordMinutes_inv _ _ _ _ _ _ Hkey Hrec) as (uid & Hid & Hsum).
  exists user, uid, (estimatedMinutes (wordCount text)).
  pose proof (wordCount_bounds text) as [Hlo Hhi].
  repeat split; try assumption.
  - now rewrite <- Hdb.
  - change 1 with (estimatedMinutes 1). now apply estimatedMinutes_monotone.
  - now apply estimatedMinutes_monotone.
Qed.

Lemma successful_turn_is_charged_witness :
  let w := calm (Scenario.store [] []) [] in
  let req := Scenario.request (Scenario.token_of Scenario.anna)
               [("message", JStr (lit "Hi"))] in
  let outcome := post_chat Scenario.env (Answer (Some [])) req w in
  exists resp w',
    NoDup (map us_id (usage (w_db w)))
    /\ outcome = (Ret resp, w')
    /\ status resp = 200
    /\ exists user uid cost,
         authenticated Scenario.env req user
         /\ sql_int (prop user "userId") = SqlVal uid
         /\ stored uid (today Scenario.env) (w_db w')
            = stored uid (today Scenario.env) (w_db w) + cost
         /\ 1 <= cost <= estimatedMinutes (Z.of_nat (length (@nil N)) + 1).
Proof.
  intros w req outcome.
  destruct outcome as [[resp|e] w'] eqn:Hrun; [|vm_compute in Hrun; discriminate].
  assert (status resp = 200) as Hok
    by (vm_compute in Hrun; injection Hrun as <- <-; reflexivity).
  assert (NoDup (map us_id (usage (w_db w)))) as Hkey by constructor.
  exists resp, w'.
  split; [exact Hkey|]. split; [reflexivity|]. split; [exact Hok|].
  exact (successful_turn_is_charged Scenario.env [] req w w' resp Hkey Hrun Hok).
Defined.

(** ** The usage endpoints *)

(** X2.  [POST /api/user/usage] refuses what is not a positive number (a
    missing field, a string, a boolean, zero, a negative amount) with 400,
    before any connection or query: the store, the fault plan and the console
    are as they were. *)
Theorem usage_rejects_bad_amounts (env : Env) (req : Request)
    (user : gmap string JsVal) (w : World) :
  authenticated env req user ->
  prop (req_body req) "minutes" <> JNum NaN ->
  (forall minutes, prop (req_body req) "minutes" = JNum (Cent minutes) -> minutes <= 0) ->
  (forall h, prop (req_body req) "minutes" = JFrac h -> (h <= 0)%Q) ->
  post_user_usage env req w = (Ret (failure 400 "Minuti non validi"), w).
Proof.
  intros Hauth Hnan Hbad Hfrac. unfold post_user_usage.
  rewrite (authenticate_next env req user _ Hauth). cbv zeta.
  destruct (prop (req_body req) "minutes") as [| | |[|minutes]| | |h]; try reflexivity;
    cbn [hundredths].
  - specialize (Hbad minutes eq_refl).
    assert (inject_Z minutes <= 0)%Q as Hle by (unfold Qle; simpl; lia).
    apply Qle_bool_iff in Hle. now rewrite Hle.
  - specialize (Hfrac h eq_refl). apply Qle_bool_iff in Hfrac. now rewrite Hfrac.
Qed.

Lemma usage_rejects_bad_amounts_witness :
  let req := Scenario.request (Scenario.token_of Scenario.anna)
               [("minutes", JStr (lit "5"))] in
  let w := {| w_db := Scenario.store [] []; w_faults := [true]; w_log := [] |} in
  post_user_usage Scenario.env req w = (Ret (failure 400 "Minuti non validi"), w).
Proof.
  intros req w.
  apply (usage_rejects_bad_amounts Scenario.env req
           (<["iat" := JNum (int 1700000000)]>
              (<["exp" := JNum (int 1702592000)]>
                 {[ "userId" := JNum (int 7);
                    "email" := JStr (lit "user@example.com");
                    "role" := JStr (lit "student") ]}))).
  - eexists. split; reflexivity.
  - discriminate.
  - intros minutes Hm. vm_compute in Hm. discriminate.
  - intros h Hm. vm_compute in Hm. discriminate.
Defined.

Lemma get_user_usage_calm (env : Env) (req : Request) (user : gmap string JsVal)
    (uid : Z) (db : Db) (log : list JsString) :
  authenticated env req user ->
  sql_int (prop user "userId") = SqlVal uid ->
  get_user_usage env req (calm db log)
  = (Ret (res_json 200
            [("daily_minutes", JNum (Cent (stored uid (today env) db)));
             ("monthly_minutes",
              JNum (Cent (sum_minutes
                            (List.filter (since_day uid (firstDayOfMonth env)) (usage db)))));
             ("minutes_limit",
              JNum (int (minutes_limit_or_default
                           (map u_minutes_limit
                                (List.filter (fun u => u_id u =? uid) (users db))))));
             ("remaining_minutes",
              JNum (Cent (Z.max 0
                 (100 * minutes_limit_or_default
                          (map u_minutes_limit
                               (List.filter (fun u => u_id u =? uid) (users db)))
                  - sum_minutes
                      (List.filter (since_day uid (firstDayOfMonth env)) (usage db))))))]),
     calm db log).
Proof.
  intros Hauth Hid. unfold get_user_usage.
  rewrite (authenticate_next env req user _ Hauth). cbv zeta. rewrite Hid.
  reflexivity.
Qed.

(** X3.  What is recorded is what is reported.  After a logged-in user, who
    exists in [users], has posted a positive amount to [POST /api/user/usage]
    that leaves the value of the day below 10^8 minutes, [GET /api/user/usage]
    reports for the day what it would have reported before plus that amount
    rounded to hundredths, which is the amount itself when it is a whole
    number of hundredths; the posting is answered 200 with the amount, as it
    was sent, as [minutes_added]. *)
Theorem recorded_usage_is_reported (env : Env) (post get : Request)
    (user : gmap string JsVal) (uid : Z) (amount : Q) (db : Db) (log : list JsString) :
  authenticated env post user -> authenticated env get user ->
  prop user "userId" = JNum (int uid) ->
  references_user uid db = true ->
  hundredths (prop (req_body post) "minutes") = Some amount -> (0 < amount)%Q ->
  stored uid (today env) db + round_half_away amount < 10000000000 ->
  usage_ok db ->
  exists db' resp,
    post_user_usage env post (calm db log)
    = (Ret (res_json 200 [("message", JStr (lit "Utilizzo registrato"));
                          ("minutes_added", prop (req_body post) "minutes")]),
       calm db' log)
    /\ get_user_usage env get (calm db' log) = (Ret resp, calm db' log)
    /\ body resp !! "daily_minutes"
       = Some (JNum (Cent (stored uid (today env) db + round_half_away amount)))
    /\ nearest (round_half_away amount) amount
    /\ (forall minutes, prop (req_body post) "minutes" = JNum (Cent minutes) ->
          body resp !! "daily_minutes"
          = Some (JNum (Cent (stored uid (today env) db + minutes))))
    /\ usage_ok db'.
Proof.
  intros Hpost Hget Hid Huser Hminutes Hpos Hfit Hok.
  assert (0 <= amount)%Q as Hamount by now apply Qlt_le_weak.
  exists (with_usage db (recorded uid (today env) (round_half_away amount) db)). eexists.
  split; [|split; [|split; [|split; [|split]]]].
  - unfold post_user_usage. rewrite (authenticate_next env post user _ Hpost).
    cbv zeta. rewrite Hminutes.
    destruct (Qle_bool amount 0) eqn:Hle;
      [apply Qle_bool_iff in Hle; exfalso; exact (Qlt_not_le _ _ Hpos Hle)|].
    unfold bind at 1. rewrite connect_calm.
    unfold try_catch, bind. rewrite Hid.
    rewrite (recordMinutes_calm uid (today env) amount db log Hok Huser Hamount Hfit).
    reflexivity.
  - apply (get_user_usage_calm env get user uid); [exact Hget|].
    rewrite Hid. apply sql_int_int.
  - rewrite recorded_stored by apply Hok. reflexivity.
  - now apply round_half_away_nearest.
  - intros minutes Hbody. rewrite Hbody in Hminutes. injection Hminutes as <-.
    rewrite recorded_stored by apply Hok. now rewrite round_half_away_Z.
  - apply recorded_ok; [exact Hok | now apply round_half_away_nonneg].
Qed.

Lemma session_authenticated (u : UserRow) (fields : list (string * JsVal)) :
  authenticated Scenario.env (Session.request u fields) (Session.payload u).
Proof. eexists. split; [reflexivity | apply verify_issued]. Qed.

Lemma recorded_usage_is_reported_witness :
  let db := Scenario.store [Scenario.row 1 7 19675 100] [] in
  let post := Session.request Scenario.anna [("minutes", JFrac (2506 # 10))] in
  let get := Session.request Scenario.anna [] in
  usage_ok db
  /\ references_user 7 db = true
  /\ exists db' resp,
       post_user_usage Scenario.env post (calm db [])
       = (Ret (res_json 200 [("message", JStr (lit "Utilizzo registrato"));
                             ("minutes_added", JFrac (2506 # 10))]), calm db' [])
       /\ get_user_usage Scenario.env get (calm db' []) = (Ret resp, calm db' [])
       /\ body resp !! "daily_minutes" = Some (JNum (Cent (100 + 251)))
       /\ usage_ok db'.
Proof.
  intros db post get.
  assert (usage_ok db) as Hok.
  { unfold usage_ok, db. simpl. split; [apply NoDup_singleton|].
    split; [apply Forall_cons_2; [simpl; lia | apply Forall_nil_2] | apply NoDup_singleton]. }
  split; [exact Hok|]. split; [reflexivity|].
  destruct (recorded_usage_is_reported Scenario.env post get (Session.payload Scenario.anna)
              7 (2506 # 10) db [])
    as (db' & resp & Hpost & Hget & Hdaily & _ & _ & Hok').
  - apply session_authenticated.
  - apply session_authenticated.
  - reflexivity.
  - reflexivity.
  - reflexivity.
  - reflexivity.
  - vm_compute. reflexivity.
  - exact Hok.
  - exists db', resp. split; [exact Hpost|]. split; [exact Hget|].
    split; [exact Hdaily | exact Hok'].
Defined.

(** X4.  The usage report and the conversation check agree.  For a logged-in
    user and a store without fault, [GET /api/user/usage] reports
    [remaining_minutes: 0] exactly when the check of [POST /api/chat] denies,
    and its [monthly_minutes] and [minutes_limit] are the [used] and the
    [limit] of the check. *)
Theorem report_agrees_with_check (env : Env) (req : Request)
    (user : gmap string JsVal) (uid : Z) (db : Db) (log : list JsString) :
  authenticated env req user ->
  sql_int (prop user "userId") = SqlVal uid ->
  exists resp check,
    get_user_usage env req (calm db log) = (Ret resp, calm db log)
    /\ admitConversation env (prop user "userId") (calm db log) = (Ret check, calm db log)
    /\ (body resp !! "remaining_minutes" = Some (JNum (Cent 0)) <-> admitted check = false)
    /\ body resp !! "monthly_minutes" = Some (JNum (used check))
    /\ body resp !! "minutes_limit" = Some (JNum (limit check)).
Proof.
  intros Hauth Hid. eexists. eexists.
  split; [apply (get_user_usage_calm env req user uid db log Hauth Hid)|].
  split.
  { unfold admitConversation, bind, read, calm. simpl. rewrite Hid. reflexivity. }
  split; [|split; reflexivity].
  cbn [admitted]. unfold num_ge, int. rewrite negb_false_iff, Z.leb_le.
  change (body (res_json 200 _) !! "remaining_minutes") with
    (Some (JNum (Cent (Z.max 0
       (100 * minutes_limit_or_default
                (map u_minutes_limit (List.filter (fun u => u_id u =? uid) (users db)))
        - sum_minutes (List.filter (since_day uid (firstDayOfMonth env)) (usage db))))))).
  split.
  - intros [= Hmax]. lia.
  - intros Hle. do 3 f_equal. lia.
Qed.

Lemma report_agrees_with_check_witness :
  let db := Scenario.store [Scenario.row 1 7 19670 12050] [] in
  let req := Session.request Scenario.anna [] in
  exists resp check,
    get_user_usage Scenario.env req (calm db []) = (Ret resp, calm db [])
    /\ admitConversation Scenario.env (prop (Session.payload Scenario.anna) "userId") (calm db [])
       = (Ret check, calm db [])
    /\ (body resp !! "remaining_minutes" = Some (JNum (Cent 0)) <-> admitted check = false)
    /\ body resp !! "monthly_minutes" = Some (JNum (used check))
    /\ body resp !! "minutes_limit" = Some (JNum (limit check)).
Proof.
  intros db req.
  apply (report_agrees_with_check Scenario.env req (Session.payload Scenario.anna) 7 db []).
  - apply session_authenticated.
  - reflexivity.
Defined.

Lemma sum_filter_le (p q : UsageRow -> bool) (rows : list UsageRow) :
  (forall r, p r = true -> q r = true) ->
  Forall (fun r => 0 <= us_minutes_used r) rows ->
  0 <= sum_minutes (List.filter p rows) <= sum_minutes (List.filter q rows).
Proof.
  intros Hpq Hall. induction Hall as [|r rows Hr Hall IH]; simpl; [lia|].
  specialize (Hpq r). destruct (p r), (q r); simpl; lia.
Qed.

(** X5.  The usage report is consistent.  With a table that satisfies
    [positive_minutes] and a day that is not before the first of the month,
    the minutes of the day are part of those of the month,
    [0 <= daily_minutes <= monthly_minutes], and [remaining_minutes] is never
    negative and never exceeds the allowance in force. *)
Theorem usage_report_consistent (env : Env) (req : Request)
    (user : gmap string JsVal) (uid : Z) (db : Db) (log : list JsString) :
  authenticated env req user ->
  sql_int (prop user "userId") = SqlVal uid ->
  Forall (fun r => 0 <= us_minutes_used r) (usage db) ->
  firstDayOfMonth env <= today env ->
  exists resp daily monthly allowance remaining,
    get_user_usage env req (calm db log) = (Ret resp, calm db log)
    /\ body resp !! "daily_minutes" = Some (JNum (Cent daily))
    /\ body resp !! "monthly_minutes" = Some (JNum (Cent monthly))
    /\ body resp !! "minutes_limit" = Some (JNum (int allowance))
    /\ body resp !! "remaining_minutes" = Some (JNum (Cent remaining))
    /\ 0 <= daily <= monthly
    /\ 0 <= remaining
    /\ (0 <= allowance -> remaining <= 100 * allowance).
Proof.
  intros Hauth Hid Hpos Hday. do 5 eexists.
  split; [apply (get_user_usage_calm env req user uid db log Hauth Hid)|].
  do 4 (split; [reflexivity|]).
  split; [|split; [lia|]].
  - unfold stored. apply sum_filter_le; [|exact Hpos].
    intros r. unfold on_day, since_day. rewrite !andb_true_iff, !Z.eqb_eq, Z.leb_le.
    intros [-> ->]. split; [reflexivity | exact Hday].
  - intros Hallow.
    pose proof (sum_filter_le (since_day uid (firstDayOfMonth env))
                  (since_day uid (firstDayOfMonth env)) (usage db)
                  (fun r H => H) Hpos). lia.
Qed.

Lemma usage_report_consistent_witness :
  let db := Scenario.store [Scenario.row 1 7 19675 100; Scenario.row 2 7 19670 300] [] in
  let req := Session.request Scenario.anna [] in
  Forall (fun r => 0 <= us_minutes_used r) (usage db)
  /\ firstDayOfMonth Scenario.env <= today Scenario.env
  /\ exists resp daily monthly allowance remaining,
       get_user_usage Scenario.env req (calm db []) = (Ret resp, calm db [])
       /\ body resp !! "daily_minutes" = Some (JNum (Cent daily))
       /\ body resp !! "monthly_minutes" = Some (JNum (Cent monthly))
       /\ body resp !! "minutes_limit" = Some (JNum (int allowance))
       /\ body resp !! "remaining_minutes" = Some (JNum (Cent remaining))
       /\ 0 <= daily <= monthly
       /\ 0 <= remaining
       /\ (0 <= allowance -> remaining <= 100 * allowance).
Proof.
  intros db req.
  assert (Forall (fun r => 0 <= us_minutes_used r) (usage db)) as Hpos
    by (unfold db; simpl; repeat (apply Forall_cons_2; [simpl; lia|]); apply Forall_nil_2).
  assert (firstDayOfMonth Scenario.env <= today Scenario.env) as Hday by (simpl; lia).
  split; [exact Hpos|]. split; [exact Hday|].
  apply (usage_report_consistent Scenario.env req (Session.payload Scenario.anna) 7 db []).
  - apply session_authenticated.
  - reflexivity.
  - exact Hpos.
  - exact Hday.
Defined.

(** ** The TTS report *)

Lemma get_tts_usage_calm (env : Env) (req : Request) (user : gmap string JsVal)
    (count : Z) (db : Db) (log : list JsString) :
  authenticated env req user ->
  select_tts_count (sql_int (prop user "id")) (today env) db = Ret count ->
  get_tts_usage env req (calm db log)
  = (let dailyLimit := tts_daily_limit (select_tts_daily_limit db) in
     let remaining := max0 (num_sub dailyLimit (int count)) in
     Ret (res_json 200 [("dailyLimit", JNum dailyLimit);
                        ("usedToday", JNum (int count));
                        ("remaining", JNum remaining);
                        ("canUsePremium", JBool (num_pos remaining))]),
     calm db log).
Proof.
  intros Hauth Hcount. unfold get_tts_usage.
  rewrite (authenticate_next env req user _ Hauth). cbv zeta.
  unfold try_catch, bind, read, calm. simpl. rewrite Hcount. reflexivity.
Qed.

(** X6.  The TTS report against the TTS check, on a store without fault.
    When the configured limit parses, [canUsePremium] of
    [GET /api/user/tts-usage] is the verdict of the check of [POST /api/tts]
    and [remaining] is [max(0, limit - used)].  When it does not parse (or is
    [NULL]), the limit is [NaN]: the report says [canUsePremium: false] with
    [dailyLimit: null], while the check admits every call. *)
Theorem tts_report_against_check (env : Env) (req : Request)
    (user : gmap string JsVal) (count : Z) (db : Db) (log : list JsString) :
  authenticated env req user ->
  select_tts_count (sql_int (prop user "id")) (today env) db = Ret count ->
  exists resp check,
    get_tts_usage env req (calm db log) = (Ret resp, calm db log)
    /\ admitTTS env (prop user "id") (calm db log) = (Ret check, calm db log)
    /\ (forall l, limit check = Cent l ->
          body resp !! "canUsePremium" = Some (JBool (admitted check))
          /\ body resp !! "remaining" = Some (JNum (Cent (Z.max 0 (l - 100 * count)))))
    /\ (limit check = NaN ->
          body resp !! "canUsePremium" = Some (JBool false)
          /\ body resp !! "dailyLimit" = Some JNull
          /\ admitted check = true).
Proof.
  intros Hauth Hcount. eexists. eexists.
  split; [apply (get_tts_usage_calm env req user count db log Hauth Hcount)|].
  split.
  { unfold admitTTS, bind, read, calm. simpl. rewrite Hcount. reflexivity. }
  cbn [limit admitted]. split.
  - intros l Hl. rewrite Hl. split; [|reflexivity].
    change (body _ !! "canUsePremium") with
      (Some (JBool (num_pos (max0 (num_sub (Cent l) (int count)))))).
    do 2 f_equal. unfold num_pos, max0, num_sub, num_ge, int.
    destruct (Z.leb_spec l (100 * count)), (Z.ltb_spec 0 (Z.max 0 (l - 100 * count)));
      simpl; try reflexivity; lia.
  - intros Hnan. rewrite Hnan. repeat split; reflexivity.
Qed.

Lemma tts_report_against_check_witness :
  let db := with_api_configs (Scenario.store [] [])
              {[ "tts_daily_limit" := Some (lit "many") ]} in
  let req := Session.request Scenario.anna [] in
  exists resp check,
    get_tts_usage Scenario.env req (calm db []) = (Ret resp, calm db [])
    /\ admitTTS Scenario.env (prop (Session.payload Scenario.anna) "id") (calm db [])
       = (Ret check, calm db [])
    /\ body resp !! "canUsePremium" = Some (JBool false)
    /\ body resp !! "dailyLimit" = Some JNull
    /\ admitted check = true.
Proof.
  intros db req.
  destruct (tts_report_against_check Scenario.env req (Session.payload Scenario.anna)
              0 db [] (session_authenticated _ _) eq_refl)
    as (resp & check & Hreport & Hcheck & _ & Hnan).
  exists resp, check. split; [exact Hreport|]. split; [exact Hcheck|].
  apply Hnan.
  unfold admitTTS, bind, read, calm in Hcheck. simpl in Hcheck.
  injection Hcheck as <-. reflexivity.
Defined.

(** ** Tokens and the gate *)

(** X7.  A token issued at login or registration opens the door for thirty
    days and no longer: [jwt.verify] in [authenticate] accepts it, with the
    secret it was signed with, exactly at the seconds before
    [iat + 2592000], and then yields the identifier and the role that were
    signed; with any other secret it never does. *)
Theorem login_token_lifetime (env : Env) (u : UserRow) (email : JsString)
    (secret : JsString) (t : Z) :
  ((exists user, jwt_verify (issue_token env u email) secret t = Some user)
   <-> secret = jwt_secret env /\ t < now env + 2592000)
  /\ (forall user, jwt_verify (issue_token env u email) secret t = Some user ->
        prop user "userId" = JNum (int (u_id u))
        /\ prop user "role" = JStr (role_name (u_role u))).
Proof.
  unfold issue_token, jwt_sign, jwt_verify.
  rewrite lookup_insert_ne by done. rewrite lookup_insert_eq.
  unfold num_ge, int.
  destruct (bool_decide_reflect (jwt_secret env = secret)) as [<-|Hne];
    [destruct (Z.leb_spec (100 * (now env + 2592000)) (100 * t)) as [Hle|Hlt]|].
  - split; [split; [intros [? [=]] | intros [_ Ht]; lia] | intros ? [=]].
  - split; [split; [intros _; split; [reflexivity | lia] | eauto] |].
    intros user [= <-]. split; reflexivity.
  - split; [split; [intros [? [=]] | intros [-> _]; contradiction] | intros ? [=]].
Qed.

Lemma authenticate_turns_away (env : Env) (req : Request)
    (next : gmap string JsVal -> M Response) (w : World) :
  (forall user, ~ authenticated env req user) ->
  turned_away (authenticate env req next) w.
Proof.
  intros Hnone. unfold turned_away, authenticate.
  destruct (authorization req) as [token|] eqn:Hheader.
  - destruct (jwt_verify token (jwt_secret env) (now env)) as [user|] eqn:Hverify.
    + exfalso. apply (Hnone user). exists token. split; [exact Hheader | exact Hverify].
    + unfold bind, console_error, ret. simpl. do 2 eexists. repeat split; reflexivity.
  - unfold ret. do 2 eexists. repeat split; reflexivity.
Qed.

(** X8.  Without a valid token nothing is read and nothing is written.  A
    request with no [Authorization] header, or whose token does not verify
    (not a token, another secret, expired), is answered 401 by every endpoint
    behind [authenticate], before any query: the store and the fault plan are
    as they were. *)
Theorem unauthenticated_requests_stop_at_the_gate (env : Env) (req : Request)
    (w : World) :
  (forall user, ~ authenticated env req user) ->
  (forall provider, turned_away (post_chat env provider req) w)
  /\ (forall provider, turned_away (post_tts env provider req) w)
  /\ turned_away (post_user_usage env req) w
  /\ turned_away (get_user_usage env req) w
  /\ turned_away (get_tts_usage env req) w
  /\ turned_away (get_tts_settings env req) w
  /\ (forall id, turned_away (put_admin_user env id req) w).
Proof.
  intros Hnone. repeat split; intros; now apply authenticate_turns_away.
Qed.

Lemma unauthenticated_requests_stop_at_the_gate_witness :
  let expired :=
    {| jwt_secret := jwt_secret Scenario.env; now := now Scenario.env + 2592000;
       today := today Scenario.env + 30; firstDayOfMonth := 19692;
       google_api_key := true |} in
  let req := Session.request Scenario.anna [("message", JStr (lit "Hi"))] in
  let w := calm (Scenario.store [] []) [] in
  (forall user, ~ authenticated expired req user)
  /\ turned_away (post_chat expired (Answer (Some Scenario.hello)) req) w.
Proof.
  intros expired req w.
  assert (forall user, ~ authenticated expired req user) as Hnone.
  { intros user (token & Hheader & Hverify).
    injection Hheader as <-. vm_compute in Hverify. discriminate. }
  split; [exact Hnone|].
  apply (unauthenticated_requests_stop_at_the_gate expired req w Hnone).
Defined.

(** ** The monthly reset of the helper script *)

Lemma filter_since_after_reset (uid : Z) (first since : Day) (rows : list UsageRow) :
  first <= since ->
  List.filter (since_day uid since)
              (List.filter (fun r => negb (us_date r <? first)) rows)
  = List.filter (since_day uid since) rows.
Proof.
  intros Hle. induction rows as [|r rows IH]; simpl; [reflexivity|].
  destruct (Z.ltb_spec (us_date r) first) as [Hold|Hnew]; simpl.
  - rewrite IH. unfold since_day.
    destruct (Z.leb_spec since (us_date r)); [lia|].
    now rewrite andb_false_r.
  - now rewrite IH.
Qed.

Lemma filter_on_day_after_reset (uid : Z) (first day : Day) (rows : list UsageRow) :
  first <= day ->
  List.filter (on_day uid day)
              (List.filter (fun r => negb (us_date r <? first)) rows)
  = List.filter (on_day uid day) rows.
Proof.
  intros Hle. induction rows as [|r rows IH]; simpl; [reflexivity|].
  destruct (Z.ltb_spec (us_date r) first) as [Hold|Hnew]; simpl.
  - rewrite IH. unfold on_day.
    destruct (Z.eqb_spec (us_date r) day); [lia|].
    now rewrite andb_false_r.
  - now rewrite IH.
Qed.

Lemma NoDup_map_filter (A B : Type) (f : A -> B) (p : A -> bool) (l : list A) :
  NoDup (map f l) -> NoDup (map f (List.filter p l)).
Proof.
  induction l as [|x l IH]; simpl; [constructor|].
  intros Hnd. inversion Hnd as [|? ? Hfresh Hnd']; subst.
  destruct (p x); simpl; [|now apply IH].
  constructor; [|now apply IH].
  intros Hin. apply Hfresh.
  apply list_elem_of_In, in_map_iff in Hin as (y & <- & Hy).
  apply filter_In in Hy as [Hy _]. apply list_elem_of_In, in_map. exact Hy.
Qed.

Lemma reset_usage_ok (first : Day) (db : Db) :
  usage_ok db ->
  usage_ok (with_usage db (List.filter (fun r => negb (us_date r <? first)) (usage db))).
Proof.
  intros (Hkey & Hpos & Huniq). unfold usage_ok. simpl. repeat split.
  - now apply NoDup_map_filter.
  - rewrite List.Forall_forall in *. intros r Hr.
    apply filter_In in Hr as [Hr _]. now apply Hpos.
  - now apply NoDup_map_filter.
Qed.

Lemma total_since_after_reset (first : Day) (db : Db) (p : SqlInt) (since : Day) :
  first <= since ->
  select_total_since p since
    (with_usage db (List.filter (fun r => negb (us_date r <? first)) (usage db)))
  = select_total_since p since db.
Proof.
  intros Hle. unfold select_total_since, where_int.
  destruct p; simpl; try reflexivity. now rewrite filter_since_after_reset.
Qed.

Lemma admitConversation_after_reset (env : Env) (db : Db) (userId : JsVal)
    (log : list JsString) :
  (admitConversation env userId
     (calm (with_usage db (List.filter (fun r => negb (us_date r <? firstDayOfMonth env))
                                       (usage db))) log)).1
  = (admitConversation env userId (calm db log)).1.
Proof.
  unfold admitConversation, bind, read, calm. simpl.
  rewrite total_since_after_reset by lia.
  destruct (select_total_since _ _ db); [|reflexivity].
  change (select_minutes_limit (sql_int userId) (with_usage db _))
    with (select_minutes_limit (sql_int userId) db).
  destruct (select_minutes_limit _ db); [|reflexivity].
  change (select_student_level (sql_int userId) (with_usage db _))
    with (select_student_level (sql_int userId) db).
  destruct (select_student_level _ db); reflexivity.
Qed.

(** X9.  The reset of the helper script never changes the month in progress.
    [resetMonthlyUsage] always returns; afterwards every sum taken from the
    first day of the month on, and what is stored for every day of the month,
    are what they were, so the check of [POST /api/chat] gives every user the
    verdict it gave before; users, TTS rows and settings are untouched and the
    integrity of the table is kept.  When its statement runs, no row older
    than the first day of the month is left. *)
Theorem reset_keeps_current_month (env : Env) (w : World) :
  exists w',
    resetMonthlyUsage env w = (Ret tt, w')
    /\ (forall p since, firstDayOfMonth env <= since ->
          select_total_since p since (w_db w') = select_total_since p since (w_db w))
    /\ (forall uid day, firstDayOfMonth env <= day ->
          stored uid day (w_db w') = stored uid day (w_db w))
    /\ (forall userId log,
          (admitConversation env userId (calm (w_db w') log)).1
          = (admitConversation env userId (calm (w_db w) log)).1)
    /\ users (w_db w') = users (w_db w)
    /\ tts_usage (w_db w') = tts_usage (w_db w)
    /\ api_configs (w_db w') = api_configs (w_db w)
    /\ (usage_ok (w_db w) -> usage_ok (w_db w'))
    /\ (hd false (w_faults w) = false ->
          Forall (fun r => firstDayOfMonth env <= us_date r) (usage (w_db w'))).
Proof.
  unfold resetMonthlyUsage, try_catch, bind, write, console_log, console_error,
    delete_usage_before.
  destruct (w_faults w) as [|[] faults] eqn:Hfaults; simpl; eexists;
    (split; [reflexivity|]); simpl.
  2: { split_and!; auto. intros [=]. }
  all: split_and!; try reflexivity.
  all: try (intros; now apply total_since_after_reset).
  all: try (intros uid day Hle; unfold stored; simpl;
            now rewrite filter_on_day_after_reset).
  all: try apply admitConversation_after_reset.
  all: try apply reset_usage_ok.
  all: intros _; apply List.Forall_forall; intros r Hr;
    apply filter_In in Hr as [_ Hr]; apply negb_true_iff, Z.ltb_ge in Hr; exact Hr.
Qed.

Lemma reset_keeps_current_month_witness :
  let db := Scenario.store [Scenario.row 1 7 19600 900; Scenario.row 2 7 19670 300] [] in
  exists w',
    resetMonthlyUsage Scenario.env (calm db []) = (Ret tt, w')
    /\ firstDayOfMonth Scenario.env <= today Scenario.env
    /\ select_total_since (SqlVal 7) (firstDayOfMonth Scenario.env) (w_db w') = Ret 300
    /\ usage (w_db w') = [Scenario.row 2 7 19670 300].
Proof.
  intros db.
  destruct (reset_keeps_current_month Scenario.env (calm db []))
    as (w' & Hrun & Hsince & _).
  exists w'. split; [exact Hrun|].
  assert (firstDayOfMonth Scenario.env <= firstDayOfMonth Scenario.env) as Hle by lia.
  split; [simpl; lia|]. split.
  - rewrite (Hsince (SqlVal 7) _ Hle). reflexivity.
  - vm_compute in Hrun. injection Hrun as <-. reflexivity.
Defined.

(** ** The daily limit: migration and settings *)

Arguments lit : simpl never.

(** The limit that the TTS handlers use on a store. *)
Lemma limit_after_default (db : Db) :
  api_configs db !! "tts_daily_limit" = None ->
  tts_daily_limit
    (select_tts_daily_limit
       (with_api_configs db (<["tts_daily_limit" := Some (lit "15")]> (api_configs db))))
  = tts_daily_limit (select_tts_daily_limit db).
Proof.
  intros Hnone. unfold select_tts_daily_limit. simpl.
  rewrite lookup_insert_eq, Hnone. reflexivity.
Qed.

Lemma insert_if_absent_limit (db db' : Db) :
  insert_tts_daily_limit_if_absent db = Ret db' ->
  tts_daily_limit (select_tts_daily_limit db')
  = tts_daily_limit (select_tts_daily_limit db)
  /\ users db' = users db /\ usage db' = usage db /\ tts_usage db' = tts_usage db
  /\ (forall value, api_configs db !! "tts_daily_limit" = Some value -> db' = db)
  /\ insert_tts_daily_limit_if_absent db' = Ret db'.
Proof.
  unfold insert_tts_daily_limit_if_absent.
  destruct (api_configs db !! "tts_daily_limit") as [value|] eqn:Hconf; intros [= <-].
  - rewrite Hconf. split_and!; try reflexivity; auto.
  - split_and!; try reflexivity; try (intros value [=]).
    + now apply limit_after_default.
    + simpl. rewrite lookup_insert_eq. reflexivity.
Qed.

(** X10.  The migration can be run again and again.  [migrate] returns
    exactly when the pool gives it a connection, whatever the faults of its
    queries, which it only logs; without a connection it rejects.  In every
    case it never touches users, minutes or TTS rows; a [tts_daily_limit] that
    is already configured is kept as it is; and the limit that the TTS
    handlers use is the same after the migration as before it (15 by default
    before, the row ['15'] after).  On a store without fault the row exists
    afterwards and a second run changes nothing. *)
Theorem migrate_keeps_limit (w : World) :
  exists outcome w',
    migrate w = (outcome, w')
    /\ (outcome = Ret tt <-> hd false (w_faults w) = false)
    /\ tts_daily_limit (select_tts_daily_limit (w_db w'))
       = tts_daily_limit (select_tts_daily_limit (w_db w))
    /\ users (w_db w') = users (w_db w)
    /\ usage (w_db w') = usage (w_db w)
    /\ tts_usage (w_db w') = tts_usage (w_db w)
    /\ (forall value, api_configs (w_db w) !! "tts_daily_limit" = Some value ->
          w_db w' = w_db w)
    /\ (w_faults w = [] ->
          api_configs (w_db w') !! "tts_daily_limit" <> None
          /\ forall log, exists log', migrate (calm (w_db w') log) = (Ret tt, calm (w_db w') log')).
Proof.
  unfold migrate, connect, try_catch, bind, write, read, console_log, console_error,
    if_not_exists.
  destruct (w_faults w) as [|[] [|[] [|[] [|[] [|[] faults]]]]] eqn:Hfaults; simpl;
    try (do 2 eexists; split; [reflexivity|]; simpl; split_and!; auto;
         solve [intros [=] | split; [discriminate | intros [=]]]).
  all: destruct (insert_tts_daily_limit_if_absent (w_db w)) as [db'|e] eqn:Hins;
    [|unfold insert_tts_daily_limit_if_absent in Hins;
      destruct (api_configs (w_db w) !! "tts_daily_limit"); discriminate].
  all: destruct (insert_if_absent_limit _ _ Hins) as (Hlimit & Hu & Hm & Ht & Hkeep & Hagain).
  all: simpl; do 2 eexists; split; [reflexivity|]; simpl; split_and!; auto;
    try (intros [=]); try (split; reflexivity).
  split.
  - unfold insert_tts_daily_limit_if_absent in Hins.
    destruct (api_configs (w_db w) !! "tts_daily_limit") eqn:Hconf;
      injection Hins as <-; simpl; [now rewrite Hconf | now rewrite lookup_insert_eq].
  - intros log. rewrite Hagain. eexists. reflexivity.
Qed.

Lemma migrate_keeps_limit_witness :
  let db := with_api_configs (Scenario.store [] [])
              {[ "tts_daily_limit" := Some (lit "40") ]} in
  exists w',
    migrate (calm db []) = (Ret tt, w')
    /\ api_configs db !! "tts_daily_limit" = Some (Some (lit "40"))
    /\ w_db w' = db.
Proof.
  intros db.
  destruct (migrate_keeps_limit (calm db []))
    as (outcome & w' & Hrun & Hret & _ & _ & _ & _ & Hkeep & _).
  exists w'. split; [|split; [reflexivity|]].
  - rewrite Hrun. f_equal. now apply Hret.
  - apply (Hkeep (Some (lit "40"))). reflexivity.
Defined.

Lemma requireAdmin_refuses (user : gmap string JsVal) (next : M Response) (w : World) :
  prop user "role" <> JStr (lit "admin") ->
  requireAdmin user next w = (Ret (failure 403 "Accesso negato: admin richiesto"), w).
Proof.
  intros Hrole. unfold requireAdmin.
  destruct (prop user "role") as [| | | |role| |]; try reflexivity.
  destruct (bool_decide_reflect (role = lit "admin")) as [->|_];
    [contradiction | reflexivity].
Qed.

Lemma requireAdmin_passes (user : gmap string JsVal) (next : M Response) :
  prop user "role" = JStr (lit "admin") -> requireAdmin user next = next.
Proof. intros Hrole. unfold requireAdmin. rewrite Hrole. reflexivity. Qed.

(** X11.  Only a token whose role is ['admin'] reaches the administration of
    the limit and of the users.  With any other role in the token,
    [GET /api/admin/tts-settings] and [PUT /api/admin/users/:id] answer 403
    and change nothing: the store, the fault plan and the console are as they
    were. *)
Theorem admin_routes_refuse_others (env : Env) (req : Request)
    (user : gmap string JsVal) (w : World) :
  authenticated env req user ->
  prop user "role" <> JStr (lit "admin") ->
  get_tts_settings env req w
  = (Ret (failure 403 "Accesso negato: admin richiesto"), w)
  /\ forall id,
       put_admin_user env id req w
       = (Ret (failure 403 "Accesso negato: admin richiesto"), w).
Proof.
  intros Hauth Hrole. split; [|intros id].
  - unfold get_tts_settings. rewrite (authenticate_next env req user _ Hauth).
    now apply requireAdmin_refuses.
  - unfold put_admin_user. rewrite (authenticate_next env req user _ Hauth).
    now apply requireAdmin_refuses.
Qed.

Lemma admin_routes_refuse_others_witness :
  let req := Session.request Scenario.anna [("role", JStr (lit "admin"))] in
  let w := calm (Scenario.store [] []) [] in
  prop (Session.payload Scenario.anna) "role" <> JStr (lit "admin")
  /\ put_admin_user Scenario.env (lit "7") req w
     = (Ret (failure 403 "Accesso negato: admin richiesto"), w).
Proof.
  intros req w.
  assert (prop (Session.payload Scenario.anna) "role" <> JStr (lit "admin")) as Hrole
    by (vm_compute; discriminate).
  split; [exact Hrole|].
  apply (admin_routes_refuse_others Scenario.env req (Session.payload Scenario.anna) w
           (session_authenticated _ _) Hrole).
Defined.

(** X12.  What the administrator reads is what the check uses.  For a token
    of role ['admin'] and a store without fault, [GET /api/admin/tts-settings]
    answers with the limit that the check of [POST /api/tts] applies on the
    same store; afterwards a [tts_daily_limit] row exists, the limit in force
    is unchanged, and users, minutes and TTS rows are untouched. *)
Theorem settings_show_limit_in_force (env : Env) (req : Request)
    (user : gmap string JsVal) (db : Db) (log : list JsString) :
  authenticated env req user ->
  prop user "role" = JStr (lit "admin") ->
  exists db',
    get_tts_settings env req (calm db log)
    = (Ret (res_json 200
              [("dailyLimit", JNum (tts_daily_limit (select_tts_daily_limit db)))]),
       calm db' log)
    /\ (forall userId check w',
          admitTTS env userId (calm db log) = (Ret check, w') ->
          limit check = tts_daily_limit (select_tts_daily_limit db))
    /\ tts_daily_limit (select_tts_daily_limit db')
       = tts_daily_limit (select_tts_daily_limit db)
    /\ api_configs db' !! "tts_daily_limit" <> None
    /\ users db' = users db /\ usage db' = usage db /\ tts_usage db' = tts_usage db.
Proof.
  intros Hauth Hrole.
  assert (forall userId check w',
            admitTTS env userId (calm db log) = (Ret check, w') ->
            limit check = tts_daily_limit (select_tts_daily_limit db)) as Hcheck.
  { intros userId check w' Hadmit.
    now apply admitTTS_inv in Hadmit as (count & _ & -> & _). }
  unfold get_tts_settings.
  rewrite (authenticate_next env req user _ Hauth), (requireAdmin_passes _ _ Hrole).
  unfold try_catch, bind, read, write, calm, insert_tts_daily_limit. simpl.
  destruct (api_configs db !! "tts_daily_limit") as [value|] eqn:Hconf.
  - exists db. unfold select_tts_daily_limit. rewrite Hconf. simpl.
    split; [destruct value; reflexivity|].
    split; [intros userId check w' Hadmit; rewrite (Hcheck _ _ _ Hadmit);
            unfold select_tts_daily_limit; now rewrite Hconf|].
    split; [reflexivity|]. split; [discriminate|]. auto.
  - unfold select_tts_daily_limit at 1. rewrite Hconf. simpl. rewrite Hconf. simpl.
    unfold select_tts_daily_limit at 1. simpl. rewrite lookup_insert_eq. simpl.
    eexists. split; [unfold select_tts_daily_limit; rewrite Hconf; reflexivity|].
    split; [exact Hcheck|].
    split; [now apply limit_after_default|].
    split; [simpl; rewrite lookup_insert_eq; discriminate|]. auto.
Qed.

Lemma settings_show_limit_in_force_witness :
  let db := Scenario.store [] [] in
  let req := Session.request Scenario.root [] in
  exists db',
    get_tts_settings Scenario.env req (calm db [])
    = (Ret (res_json 200 [("dailyLimit", JNum (int 15))]), calm db' [])
    /\ api_configs db' !! "tts_daily_limit" <> None.
Proof.
  intros db req.
  destruct (settings_show_limit_in_force Scenario.env req (Session.payload Scenario.root)
              db [] (session_authenticated _ _) eq_refl)
    as (db' & Hrun & _ & _ & Hrow & _).
  exists db'. split; [exact Hrun | exact Hrow].
Defined.

(** ** The administration of users *)

Lemma write_returning_calm (A : Type) (stmt : Db -> Res (A * Db)) (db db' : Db)
    (a : A) (log : list JsString) :
  stmt db = Ret (a, db') ->
  write_returning stmt (calm db log) = (Ret a, calm db' log).
Proof. intros Hstmt. unfold write_returning, calm. simpl. now rewrite Hstmt. Qed.

Lemma updated_ids (n : Z) (set : UserRow -> UserRow) (us : list UserRow) :
  (forall u, u_id (set u) = u_id u) ->
  map u_id (map (fun u => if u_id u =? n then set u else u) us) = map u_id us.
Proof.
  intros Hset. induction us as [|u us IH]; simpl; [reflexivity|].
  rewrite IH. destruct (u_id u =? n); [now rewrite Hset | reflexivity].
Qed.

(** The effect of the update on a user that exists. *)
Lemma put_admin_user_calm (env : Env) (id : JsString) (req : Request)
    (user : gmap string JsVal) (n : Z) (u : UserRow) (db : Db) (log : list JsString) :
  authenticated env req user ->
  prop user "role" = JStr (lit "admin") ->
  int4 (int_of_text id) = SqlVal n ->
  u ∈ users db -> u_id u = n ->
  limit_update (req_body req) <> Some SqlBad ->
  (limit_update (req_body req) <> None \/ role_update (req_body req) <> None) ->
  put_admin_user env id req (calm db log)
  = (Ret (res_json 200 [("message", JStr (lit "Utente aggiornato"))]),
     calm (with_users db
             (map (fun v => if u_id v =? n
                            then assign (assigned_limit (limit_update (req_body req)))
                                        (role_update (req_body req)) v
                            else v) (users db))) log).
Proof.
  intros Hauth Hrole Hid Hin Hu Hgood Hsome. unfold put_admin_user.
  rewrite (authenticate_next env req user _ Hauth), (requireAdmin_passes _ _ Hrole).
  cbv zeta. unfold bind at 1. rewrite connect_calm. unfold try_catch, bind.
  assert (exists row rows,
            update_user (limit_update (req_body req)) (role_update (req_body req))
                        (int_of_text id) db
            = Ret (row :: rows,
                   with_users db
                     (map (fun v => if u_id v =? n
                                    then assign (assigned_limit (limit_update (req_body req)))
                                                (role_update (req_body req)) v
                                    else v) (users db)))) as (row & rows & Hupd).
  { unfold update_user. rewrite Hid.
    apply list_elem_of_In in Hin.
    assert (In u (List.filter (fun v => u_id v =? n) (users db))) as Hhit
      by (apply filter_In; split; [exact Hin | now apply Z.eqb_eq]).
    destruct (List.filter (fun v => u_id v =? n) (users db)) as [|v vs];
      [contradiction|].
    destruct (limit_update (req_body req)) as [[| |]|]; try contradiction;
      do 2 eexists; reflexivity. }
  destruct (limit_update (req_body req)) as [l|] eqn:Hl;
    destruct (role_update (req_body req)) as [r|] eqn:Hr;
    try (destruct Hsome; congruence);
    rewrite (write_returning_calm _ _ _ _ _ log Hupd); reflexivity.
Qed.

Lemma assign_id (new_limit : option (option Z)) (new_role : option Role) (u : UserRow) :
  u_id (assign new_limit new_role u) = u_id u.
Proof. reflexivity. Qed.

Lemma updated_member (n : Z) (set : UserRow -> UserRow) (us : list UserRow) (u : UserRow) :
  u ∈ us ->
  (if u_id u =? n then set u else u) ∈ map (fun v => if u_id v =? n then set v else v) us.
Proof. intros Hin. now apply (list_elem_of_fmap_2 (fun v => if u_id v =? n then set v else v)). Qed.

(** X13.  A new allowance takes effect at the next check.  When an
    administrator sets [minutes_limit] of an existing user to an integer
    other than 0 through [PUT /api/admin/users/:id], the request is answered
    200 and from then on the check of [POST /api/chat] denies that user
    exactly when the monthly total has reached the new allowance; the minutes
    recorded and the other users are untouched. *)
Theorem new_allowance_takes_effect (env : Env) (id : JsString) (req : Request)
    (user : gmap string JsVal) (n allowance : Z) (u : UserRow) (db : Db)
    (log : list JsString) :
  authenticated env req user ->
  prop user "role" = JStr (lit "admin") ->
  int4 (int_of_text id) = SqlVal n ->
  u ∈ users db -> u_id u = n -> NoDup (map u_id (users db)) ->
  prop (req_body req) "minutes_limit" = JNum (int allowance) ->
  -2147483648 <= allowance <= 2147483647 -> allowance <> 0 ->
  exists db',
    put_admin_user env id req (calm db log)
    = (Ret (res_json 200 [("message", JStr (lit "Utente aggiornato"))]), calm db' log)
    /\ usage db' = usage db
    /\ (forall v, v ∈ users db -> u_id v <> n -> v ∈ users db')
    /\ (forall env' log',
          admitConversation env' (JNum (int n)) (calm db' log')
          = (let monthly :=
               sum_minutes (List.filter (since_day n (firstDayOfMonth env')) (usage db)) in
             Ret {| admitted := negb (100 * allowance <=? monthly);
                    used := Cent monthly;
                    limit := int allowance |}, calm db' log')).
Proof.
  intros Hauth Hrole Hid Hin Hu Hkey Hbody Hrange Hnz.
  assert (limit_update (req_body req) = Some (SqlVal allowance)) as Hlimit.
  { unfold limit_update. rewrite Hbody, sql_int_int. unfold int4.
    destruct (Z.leb_spec (-2147483648) allowance), (Z.leb_spec allowance 2147483647);
      simpl; try lia; reflexivity. }
  eexists. split; [|split; [|split]].
  - apply (put_admin_user_calm env id req user n u db log); try assumption.
    + rewrite Hlimit. discriminate.
    + left. rewrite Hlimit. discriminate.
  - reflexivity.
  - intros v Hv Hne. simpl.
    pose proof (updated_member n
                  (assign (assigned_limit (limit_update (req_body req)))
                          (role_update (req_body req))) (users db) v Hv) as Hmem.
    destruct (Z.eqb_spec (u_id v) n); [contradiction | exact Hmem].
  - intros env' log'. rewrite Hlimit. simpl assigned_limit.
    set (set := assign (Some (Some allowance)) (role_update (req_body req))).
    unfold admitConversation. rewrite sql_int_int.
    unfold bind, read, calm, select_total_since, select_minutes_limit, where_int. simpl.
    assert (List.filter (fun x => u_id x =? n)
              (map (fun v => if u_id v =? n then set v else v) (users db))
            = [set u]) as ->.
    { subst n. refine (select_by_id _ (set u) _ _).
      - rewrite updated_ids by (intros; apply assign_id). exact Hkey.
      - pose proof (updated_member (u_id u) set (users db) u Hin) as Hmem.
        rewrite Z.eqb_refl in Hmem. exact Hmem. }
    simpl. destruct (Z.eqb_spec allowance 0); [contradiction | reflexivity].
Qed.

Lemma new_allowance_takes_effect_witness :
  let db := Scenario.store [Scenario.row 1 7 19670 15000] [] in
  let req := Session.request Scenario.root [("minutes_limit", JNum (int 200))] in
  exists db',
    put_admin_user Scenario.env (lit "7") req (calm db [])
    = (Ret (res_json 200 [("message", JStr (lit "Utente aggiornato"))]), calm db' [])
    /\ admitConversation Scenario.env (JNum (int 7)) (calm db' [])
       = (Ret {| admitted := true; used := Cent 15000; limit := int 200 |}, calm db' []).
Proof.
  intros db req.
  destruct (new_allowance_takes_effect Scenario.env (lit "7") req
              (Session.payload Scenario.root) 7 200 Scenario.anna db [])
    as (db' & Hrun & _ & _ & Hcheck).
  - apply session_authenticated.
  - reflexivity.
  - reflexivity.
  - right. left.
  - reflexivity.
  - apply NoDup_ListNoDup. repeat constructor; simpl; lia.
  - reflexivity.
  - lia.
  - lia.
  - exists db'. split; [exact Hrun|]. apply (Hcheck Scenario.env []).
Defined.

Lemma limits_after_role_update (n : Z) (new_role : option Role) (us : list UserRow) :
  map u_minutes_limit
      (List.filter (fun x => u_id x =? n)
                   (map (fun v => if u_id v =? n then assign None new_role v else v) us))
  = map u_minutes_limit (List.filter (fun x => u_id x =? n) us).
Proof.
  induction us as [|u us IH]; simpl; [reflexivity|].
  destruct (Z.eqb_spec (u_id u) n) as [Heq|Hne]; simpl.
  - apply Z.eqb_eq in Heq. rewrite Heq. simpl. now rewrite IH.
  - apply Z.eqb_neq in Hne. rewrite Hne. exact IH.
Qed.

(** X14.  A change of role alone leaves the allowance alone.  When
    [PUT /api/admin/users/:id] carries a role (['admin'] or ['student']) and
    no numeric [minutes_limit], the user gets the role and keeps the
    allowance: the check of [POST /api/chat] gives that user, and every other
    identifier, the verdict it gave before.  A user promoted this way is not
    given the 999999 minutes of a registered administrator. *)
Theorem role_change_keeps_allowance (env : Env) (id : JsString) (req : Request)
    (user : gmap string JsVal) (n : Z) (role : Role) (u : UserRow) (db : Db)
    (log : list JsString) :
  authenticated env req user ->
  prop user "role" = JStr (lit "admin") ->
  int4 (int_of_text id) = SqlVal n ->
  u ∈ users db -> u_id u = n ->
  limit_update (req_body req) = None ->
  role_update (req_body req) = Some role ->
  exists db',
    put_admin_user env id req (calm db log)
    = (Ret (res_json 200 [("message", JStr (lit "Utente aggiornato"))]), calm db' log)
    /\ {| u_id := n; u_role := role; u_minutes_limit := u_minutes_limit u |} ∈ users db'
    /\ forall env' log',
         (admitConversation env' (JNum (int n)) (calm db' log')).1
         = (admitConversation env' (JNum (int n)) (calm db log')).1.
Proof.
  intros Hauth Hrole Hid Hin Hu Hlimit Hnew.
  eexists. split; [|split].
  - apply (put_admin_user_calm env id req user n u db log); try assumption.
    + rewrite Hlimit. discriminate.
    + right. rewrite Hnew. discriminate.
  - rewrite Hlimit, Hnew. simpl.
    pose proof (updated_member n (assign None (Some role)) (users db) u Hin) as Hmem.
    rewrite Hu, Z.eqb_refl in Hmem. unfold assign in Hmem at 1. simpl in Hmem.
    rewrite Hu in Hmem. exact Hmem.
  - intros env' log'. rewrite Hlimit, Hnew. simpl assigned_limit.
    unfold admitConversation. rewrite sql_int_int.
    unfold bind, read, calm, select_total_since, select_minutes_limit, where_int. simpl.
    rewrite limits_after_role_update. reflexivity.
Qed.

Lemma role_change_keeps_allowance_witness :
  let db := Scenario.store [] [] in
  let req := Session.request Scenario.root [("role", JStr (lit "admin"))] in
  exists db',
    put_admin_user Scenario.env (lit "7") req (calm db [])
    = (Ret (res_json 200 [("message", JStr (lit "Utente aggiornato"))]), calm db' [])
    /\ {| u_id := 7; u_role := admin; u_minutes_limit := Some 120 |} ∈ users db'.
Proof.
  intros db req.
  destruct (role_change_keeps_allowance Scenario.env (lit "7") req
              (Session.payload Scenario.root) 7 admin Scenario.anna db [])
    as (db' & Hrun & Hrow & _).
  - apply session_authenticated.
  - reflexivity.
  - reflexivity.
  - right. left.
  - reflexivity.
  - reflexivity.
  - reflexivity.
  - exists db'. split; [exact Hrun | exact Hrow].
Defined.

(** ** Concurrent recordings on a day that has its row *)

Section Existing_row.

Variables (uid : Z) (day : Day) (rid : Z).

Lemma the_row_is_selected (db : Db) (row : UsageRow) :
  usage_ok db -> In row (usage db) -> on_day uid day row = true ->
  List.filter (on_day uid day) (usage db) = [row].
Proof.
  intros (_ & _ & Huniq) Hin Hrow.
  pose proof (one_row_at_most uid day (usage db) Huniq) as Hone.
  assert (In row (List.filter (on_day uid day) (usage db))) as Hsel
    by (apply filter_In; split; assumption).
  destruct (List.filter (on_day uid day) (usage db)) as [|r [|r' rest]];
    simpl in *; [contradiction | | lia].
  destruct Hsel as [->|[]]. reflexivity.
Qed.

Lemma bump_keeps_row (amount : Z) (db : Db) :
  has_row uid day rid db ->
  has_row uid day rid (with_usage db (map (bump amount rid) (usage db))).
Proof.
  intros (row & Hin & Hid & Hrow). exists (bump amount rid row). simpl. split; [|split].
  - now apply in_map.
  - unfold bump. destruct (us_id row =? rid); exact Hid.
  - now rewrite bump_on_day.
Qed.

Lemma bump_usage_ok (amount : Z) (db : Db) :
  usage_ok db -> 0 <= amount ->
  usage_ok (with_usage db (map (bump amount rid) (usage db))).
Proof.
  intros (Hkey & Hpos & Huniq) Hamount. unfold usage_ok. simpl.
  rewrite bump_id, bump_user_date. split; [exact Hkey|]. split; [|exact Huniq].
  now apply bump_nonneg.
Qed.

Lemma owed_nonneg (r : Recorder) : on_existing_row uid day rid r -> 0 <= owed r.
Proof.
  destruct r as [userId d amount|existing userId d amount|outcome]; simpl;
    [intros (_ & _ & Hamount) | intros (Hamount & _) | lia];
    now apply round_half_away_nonneg.
Qed.

Lemma owed_nearest (r : Recorder) : on_existing_row uid day rid r -> owes_nearest r.
Proof.
  destruct r as [userId d amount|existing userId d amount|outcome]; simpl;
    [intros (_ & _ & Hamount) | intros (Hamount & _) | auto];
    now apply round_half_away_nearest.
Qed.

Lemma owed_by_all_nonneg (rs : list Recorder) :
  Forall (on_existing_row uid day rid) rs -> 0 <= owed_by_all rs.
Proof.
  intros Hrs. induction Hrs as [|r rs Hr Hrs IH]; simpl; [lia|].
  pose proof (owed_nonneg r Hr). lia.
Qed.

Lemma owed_below_all (rs : list Recorder) (i : nat) (r : Recorder) :
  Forall (on_existing_row uid day rid) rs -> rs !! i = Some r ->
  owed r <= owed_by_all rs.
Proof.
  intros Hrs. revert i. induction Hrs as [|x rs Hx Hrs IH]; intros [|i] Hi;
    try discriminate; simpl in *.
  - injection Hi as ->. pose proof (owed_by_all_nonneg rs Hrs). lia.
  - specialize (IH i Hi). pose proof (owed_nonneg x Hx). lia.
Qed.

(** One step of one request keeps the table sound, keeps the row, keeps the
    request in order, and moves what it adds from owed to stored. *)
Lemma step_on_existing_row (r : Recorder) (db : Db) :
  usage_ok db -> has_row uid day rid db -> on_existing_row uid day rid r ->
  stored uid day db + owed r < 10000000000 ->
  let '(r', db') := recorder_step r db in
  usage_ok db' /\ has_row uid day rid db' /\ on_existing_row uid day rid r'
  /\ stored uid day db' + owed r' = stored uid day db + owed r.
Proof.
  intros Hok Hhas Hr Hfit.
  destruct r as [userId d amount|existing userId d amount|outcome]; simpl in *.
  - destruct Hr as (-> & -> & Hamount). rewrite sql_int_int.
    unfold select_existing, where_int.
    destruct Hhas as (row & Hin & Hid & Hrow).
    rewrite (the_row_is_selected db row Hok Hin Hrow). simpl.
    split; [exact Hok|]. split; [exists row; auto|]. split; [|reflexivity].
    split; [exact Hamount|]. exists row, []. auto.
  - destruct Hr as (Hamount & row & rest & -> & Hid). rewrite Hid.
    pose proof (round_half_away_nonneg amount Hamount) as Hround.
    destruct Hhas as (row' & Hin & Hid' & Hrow).
    assert (In row' (List.filter (on_day uid day) (usage db))) as Hsel
      by (apply filter_In; split; assumption).
    pose proof (selected_below_stored uid day db row' (proj1 (proj2 Hok)) Hsel) as Hbelow.
    unfold update_add_minutes.
    rewrite (update_where_id_bump amount (round_half_away amount)).
    + split; [now apply bump_usage_ok|].
      split; [apply bump_keeps_row; exists row'; auto|].
      split; [reflexivity|]. simpl. unfold stored. simpl. rewrite <- Hid'.
      rewrite (stored_bump uid day _ row' (usage db) (proj1 Hok) Hin Hrow). lia.
    + intros r Hr Hrid. rewrite <- Hid' in Hrid.
      rewrite (key_row (usage db) r row' (proj1 Hok) Hr Hin Hrid), <- Hid'.
      apply add_minutes_bump; [|lia].
      rewrite numeric_10_2_fits; rewrite round_half_away_add by (lia || assumption);
        [reflexivity | lia].
  - auto.
Qed.

Lemma owed_replaced (rs : list Recorder) (i : nat) (r r' : Recorder) :
  rs !! i = Some r ->
  owed_by_all (<[i := r']> rs) = owed_by_all rs - owed r + owed r'.
Proof.
  revert i. induction rs as [|x rs IH]; intros [|i] Hi; try discriminate; simpl in *.
  - injection Hi as ->. lia.
  - rewrite (IH i Hi). lia.
Qed.

(** X15.  On a day that already has its row, no interleaving loses a
    recording.  Requests that record amounts that are not negative for the
    same user and day, served in any order of their [SELECT]s and [UPDATE]s
    while the value stays below 10^8 minutes, never raise, and at every moment
    what is stored plus what the unfinished requests still owe is what was
    stored at the start plus all their amounts, each as the column rounds it:
    to the nearest hundredth, ties up. *)
Theorem existing_row_loses_nothing (schedule : list nat) :
  forall (rs : list Recorder) (db : Db),
  usage_ok db -> has_row uid day rid db ->
  Forall (on_existing_row uid day rid) rs ->
  stored uid day db + owed_by_all rs < 10000000000 ->
  let '(rs', db') := interleave schedule rs db in
  stored uid day db' + owed_by_all rs' = stored uid day db + owed_by_all rs
  /\ Forall (on_existing_row uid day rid) rs'
  /\ usage_ok db'
  /\ Forall owes_nearest rs.
Proof.
  induction schedule as [|i rest IH]; intros rs db Hok Hhas Hrs Hfit; simpl.
  { split_and!; auto. apply (Forall_impl _ _ _ Hrs), owed_nearest. }
  destruct (rs !! i) as [r|] eqn:Hi; [|now apply IH].
  assert (on_existing_row uid day rid r) as Hr.
  { rewrite List.Forall_forall in Hrs. apply Hrs, list_elem_of_In.
    now apply (list_elem_of_lookup_2 _ i). }
  pose proof (owed_below_all rs i r Hrs Hi) as Hshare.
  pose proof (step_on_existing_row r db Hok Hhas Hr ltac:(lia)) as Hstep.
  destruct (recorder_step r db) as [r' db1].
  destruct Hstep as (Hok1 & Hhas1 & Hr' & Hsum).
  pose proof (owed_replaced rs i r r' Hi) as Hrep.
  specialize (IH (<[i := r']> rs) db1 Hok1 Hhas1 (Forall_insert _ _ _ _ Hrs Hr')
                 ltac:(lia)).
  destruct (interleave rest (<[i := r']> rs) db1) as [rs' db'].
  destruct IH as (Hsum' & Hrs' & Hok' & _).
  split_and!; auto; [lia|]. apply (Forall_impl _ _ _ Hrs), owed_nearest.
Qed.

End Existing_row.

Lemma existing_row_loses_nothing_witness :
  let db := Scenario.store [Scenario.row 4 7 19675 50] [] in
  let request := Selecting (JNum (int 7)) 19675 (1004 # 10) in
  usage_ok db
  /\ has_row 7 19675 4 db
  /\ Forall (on_existing_row 7 19675 4) [request; request]
  /\ stored 7 19675 db + owed_by_all [request; request] < 10000000000
  /\ let '(rs', db') := interleave [0; 1; 0; 1]%nat [request; request] db in
     stored 7 19675 db' + owed_by_all rs'
     = stored 7 19675 db + owed_by_all [request; request]
     /\ Forall (on_existing_row 7 19675 4) rs'
     /\ usage_ok db'
     /\ Forall owes_nearest [request; request].
Proof.
  intros db request.
  assert (usage_ok db) as Hok.
  { unfold usage_ok, db. simpl. split; [apply NoDup_singleton|].
    split; [apply Forall_cons_2; [simpl; lia | apply Forall_nil_2] | apply NoDup_singleton]. }
  assert (has_row 7 19675 4 db) as Hhas.
  { exists (Scenario.row 4 7 19675 50). split; [left; reflexivity | split; reflexivity]. }
  assert (Forall (on_existing_row 7 19675 4) [request; request]) as Hrs.
  { repeat (apply Forall_cons_2; [simpl; split_and!; [reflexivity | reflexivity | discriminate]|]).
    apply Forall_nil_2. }
  assert (stored 7 19675 db + owed_by_all [request; request] < 10000000000) as Hfit
    by (vm_compute; reflexivity).
  split; [exact Hok|]. split; [exact Hhas|]. split; [exact Hrs|]. split; [exact Hfit|].
  exact (existing_row_loses_nothing 7 19675 4 [0; 1; 0; 1]%nat [request; request] db
           Hok Hhas Hrs Hfit).
Defined.

Example raced_on_existing_row :
  let request := Selecting (JNum (int 7)) 19675 100 in
  let '(rs, db) := interleave [0; 1; 0; 1]%nat [request; request]
                              (Scenario.store [Scenario.row 4 7 19675 50] []) in
  stored 7 19675 db = 250 /\ rs = [Finished (Ret tt); Finished (Ret tt)].
Proof. vm_compute. split; reflexivity. Qed.

(** ** The identifier in a Drive link *)

Lemma id_run_split (s : JsString) :
  exists post,
    s = id_run s ++ post
    /\ forallb is_id_char (id_run s) = true
    /\ match post with c :: _ => is_id_char c = false | [] => True end.
Proof.
  induction s as [|c s (post & Hs & Hall & Hpost)]; simpl; [exists []; auto|].
  destruct (is_id_char c) eqn:Hc.
  - exists post. simpl. rewrite Hc, Hall. split; [now rewrite <- Hs | auto].
  - exists (c :: s). auto.
Qed.

Lemma id_run_longest (mid post : JsString) :
  forallb is_id_char mid = true ->
  (length mid <= length (id_run (mid ++ post)))%nat.
Proof.
  induction mid as [|c mid IH]; simpl; [lia|].
  intros Hall. apply andb_true_iff in Hall as [Hc Hall].
  rewrite Hc. simpl. specialize (IH Hall). lia.
Qed.

(** X16.  [extractGoogleDriveId] returns the first run of 25 or more
    characters among letters, digits, [_] and [-], whole: the result is a
    piece of the link, made of such characters only, that cannot be extended
    to the right, and no such run of 25 starts earlier; it is [null] exactly
    when the link has no run of 25. *)
Theorem extractGoogleDriveId_first_run (url : JsString) :
  match extractGoogleDriveId url with
  | Some id =>
      exists pre post,
        url = pre ++ id ++ post
        /\ (25 <= length id)%nat
        /\ forallb is_id_char id = true
        /\ match post with c :: _ => is_id_char c = false | [] => True end
        /\ forall pre' mid post',
             url = pre' ++ mid ++ post' -> forallb is_id_char mid = true ->
             (25 <= length mid)%nat -> (length pre <= length pre')%nat
  | None =>
      forall pre mid post,
        url = pre ++ mid ++ post -> forallb is_id_char mid = true ->
        (length mid < 25)%nat
  end.
Proof.
  induction url as [|c rest IH]; [simpl|].
  - intros pre mid post Hurl _.
    destruct pre; [destruct mid; [simpl; lia | discriminate] | discriminate].
  - cbn [extractGoogleDriveId].
    destruct (Nat.leb_spec 25 (length (id_run (c :: rest)))) as [Hlong|Hshort].
    + destruct (id_run_split (c :: rest)) as (post & Hs & Hall & Hpost).
      exists [], post. simpl app. split_and!; auto. intros; simpl; lia.
    + assert (forall mid post', c :: rest = mid ++ post' ->
                forallb is_id_char mid = true -> (length mid < 25)%nat) as Hhead.
      { intros mid post' Hurl Hall. rewrite Hurl in Hshort.
        pose proof (id_run_longest mid post' Hall). lia. }
      destruct (extractGoogleDriveId rest) as [id|].
      * destruct IH as (pre & post & Hrest & Hlen & Hall & Hpost & Hfirst).
        exists (c :: pre), post. split_and!; auto; [simpl; now rewrite <- Hrest|].
        intros [|c' pre'] mid post' Hurl Hmid Hlong.
        -- specialize (Hhead mid post' Hurl Hmid). lia.
        -- injection Hurl as <- Hurl. specialize (Hfirst pre' mid post' Hurl Hmid Hlong).
           simpl. lia.
      * intros [|c' pre] mid post Hurl Hmid.
        -- exact (Hhead mid post Hurl Hmid).
        -- injection Hurl as <- Hurl. exact (IH pre mid post Hurl Hmid).
Qed.

(** An identifier on its own is returned as it is, so extracting twice is
    extracting once. *)
Lemma extractGoogleDriveId_bare (id : JsString) :
  forallb is_id_char id = true -> (25 <= length id)%nat ->
  extractGoogleDriveId id = Some id.
Proof.
  intros Hall Hlong.
  assert (id_run id = id) as Hrun.
  { clear Hlong. induction id as [|c id IH]; simpl in *; [reflexivity|].
    apply andb_true_iff in Hall as [Hc Hall]. rewrite Hc. now rewrite IH. }
  destruct id as [|c id]; [simpl in Hlong; lia|].
  cbn [extractGoogleDriveId]. rewrite Hrun.
  destruct (Nat.leb_spec 25 (length (c :: id))); [reflexivity | lia].
Qed.

Example drive_link :
  extractGoogleDriveId
    (lit "https://drive.google.com/file/d/1A2b3C4d5E6f7G8h9I0jK_lM-nOpQrStU/view")
  = Some (lit "1A2b3C4d5E6f7G8h9I0jK_lM-nOpQrStU").
Proof. vm_compute. reflexivity. Qed.

Example drive_link_short : extractGoogleDriveId (lit "https://drive.google.com/file/d/abc") = None.
Proof. vm_compute. reflexivity. Qed.

Lemma extractGoogleDriveId_shape (url id : JsString) :
  extractGoogleDriveId url = Some id ->
  forallb is_id_char id = true /\ (25 <= length id)%nat.
Proof.
  induction url as [|c rest IH]; [discriminate|].
  cbn [extractGoogleDriveId].
  destruct (Nat.leb_spec 25 (length (id_run (c :: rest)))) as [Hlong|Hshort]; [|exact IH].
  intros [= <-]. destruct (id_run_split (c :: rest)) as (post & _ & Hall & _). auto.
Qed.

(** X17.  Extracting is idempotent: what [extractGoogleDriveId] returns for
    a link is returned unchanged when it is given in place of the link. *)
Theorem extractGoogleDriveId_idempotent (url id : JsString) :
  extractGoogleDriveId url = Some id -> extractGoogleDriveId id = Some id.
Proof.
  intros Hid. apply extractGoogleDriveId_shape in Hid as [Hall Hlong].
  now apply extractGoogleDriveId_bare.
Qed.

Lemma extractGoogleDriveId_idempotent_witness :
  extractGoogleDriveId (lit "https://drive.google.com/file/d/1A2b3C4d5E6f7G8h9I0jK_lM-nOpQrStU/view")
  = Some (lit "1A2b3C4d5E6f7G8h9I0jK_lM-nOpQrStU")
  /\ extractGoogleDriveId (lit "1A2b3C4d5E6f7G8h9I0jK_lM-nOpQrStU")
     = Some (lit "1A2b3C4d5E6f7G8h9I0jK_lM-nOpQrStU").
Proof.
  split; [vm_compute; reflexivity|].
  apply (extractGoogleDriveId_idempotent
           (lit "https://drive.google.com/file/d/1A2b3C4d5E6f7G8h9I0jK_lM-nOpQrStU/view")).
  vm_compute. reflexivity.
Defined.

(** ** The identifier in a YouTube link *)

Example youtube_watch :
  extractYouTubeId (lit "https://www.youtube.com/watch?v=dQw4w9WgXcQ&t=42s")
  = Some (lit "dQw4w9WgXcQ").
Proof. vm_compute. reflexivity. Qed.

Example youtube_short : extractYouTubeId (lit "https://youtu.be/dQw4w9WgXcQ") = Some (lit "dQw4w9WgXcQ").
Proof. vm_compute. reflexivity. Qed.

Example youtube_embed :
  extractYouTubeId (lit "https://www.youtube.com/embed/dQw4w9WgXcQ?rel=0")
  = Some (lit "dQw4w9WgXcQ").
Proof. vm_compute. reflexivity. Qed.

Example youtube_user_path :
  extractYouTubeId (lit "http://youtube.com/user/name/u/1/dQw4w9WgXcQ")
  = Some (lit "dQw4w9WgXcQ").
Proof. vm_compute. reflexivity. Qed.

Example youtube_too_short : extractYouTubeId (lit "https://youtu.be/dQw4w9WgXc") = None.
Proof. vm_compute. reflexivity. Qed.

Example youtube_other_site : extractYouTubeId (lit "https://vimeo.com/dQw4w9WgXcQ") = None.
Proof. vm_compute. reflexivity. Qed.

Lemma after_literal_inv (p s r : JsString) : after_literal p s = Some r -> s = p ++ r.
Proof.
  revert s. induction p as [|a p IH]; intros [|b s]; simpl; try congruence.
  destruct (N.eqb_spec a b) as [->|]; [|discriminate].
  intros H. now rewrite (IH _ H).
Qed.

Lemma lit_then_inv (p : string) (k : JsString -> option JsString) (s id : JsString) :
  lit_then p k s = Some id -> exists r, s = lit p ++ r /\ k r = Some id.
Proof.
  unfold lit_then. destruct (after_literal (lit p) s) as [r|] eqn:Hp; [|discriminate].
  intros Hk. exists r. split; [now apply after_literal_inv | exact Hk].
Qed.

Lemma or_else_inv (a b : option JsString) (id : JsString) :
  or_else a b = Some id -> a = Some id \/ b = Some id.
Proof. destruct a; simpl; auto. Qed.

Lemma eleven_inv (s id : JsString) :
  eleven s = Some id ->
  length id = 11%nat /\ forallb is_video_char id = true /\ exists post, s = id ++ post.
Proof.
  unfold eleven.
  destruct (Nat.eqb_spec (length (firstn 11 s)) 11) as [Hlen|]; [|discriminate].
  destruct (forallb is_video_char (firstn 11 s)) eqn:Hall; [|discriminate].
  intros [= <-]. split_and!; auto. exists (skipn 11 s). symmetry. apply firstn_skipn.
Qed.

Lemma dots_then_inv (tail : JsString -> option JsString) (s id : JsString) :
  dots_then tail s = Some id -> exists a b, s = a ++ b /\ tail b = Some id.
Proof.
  induction s as [|c r IH]; simpl.
  - intros H. exists [], []. auto.
  - destruct (is_line_end c); [intros H; exists [], (c :: r); auto|].
    destruct (dots_then tail r) as [x|].
    + intros [= ->]. destruct (IH eq_refl) as (a & b & -> & Hb).
      exists (c :: a), b. auto.
    + intros H. exists [], (c :: r). auto.
Qed.

Lemma segment_inv (s : JsString) : s = (segment s).1 ++ (segment s).2.
Proof.
  induction s as [|c r IH]; simpl; [reflexivity|].
  destruct (c =? 47)%N; [reflexivity|].
  destruct (segment r) as [seg rest]. simpl in *. now rewrite <- IH.
Qed.

(** What is found after [youtube.com/] stands right after a [/] or a [=]. *)
Lemma after_youtube_com_inv (r id : JsString) :
  after_youtube_com r = Some id ->
  length id = 11%nat /\ forallb is_video_char id = true
  /\ exists m c post, r = m ++ c :: id ++ post /\ (c = 47 \/ c = 61)%N.
Proof.
  unfold after_youtube_com. intros H.
  apply or_else_inv in H as [H|H]; [|apply or_else_inv in H as [H|H]].
  - pose proof (segment_inv r) as Hr.
    destruct (segment r) as [[|c0 seg] rest]; [discriminate|]. simpl in Hr.
    apply lit_then_inv in H as (r1 & -> & H).
    unfold path_eleven in H. destruct r1 as [|c1 r2]; [discriminate|].
    destruct (is_line_end c1); [discriminate|].
    apply dots_then_inv in H as (a & b & -> & H).
    apply lit_then_inv in H as (b' & -> & H).
    apply eleven_inv in H as (Hlen & Hall & post & ->).
    split_and!; auto.
    exists ((c0 :: seg) ++ lit "/" ++ c1 :: a), 47%N, post. split; [|auto].
    rewrite Hr. change (lit "/") with [47%N]. simpl. now rewrite <- !app_assoc.
  - assert (exists p r', r = lit p ++ r' /\ eleven r' = Some id
                         /\ exists m, lit p = m ++ [47%N]) as (p & r' & -> & H' & m & Hm).
    { apply or_else_inv in H as [H|H]; [|apply or_else_inv in H as [H|H]];
        apply lit_then_inv in H as (r' & -> & H).
      - exists "v/"%string, r'. split_and!; auto. exists (lit "v"). reflexivity.
      - exists "embed/"%string, r'. split_and!; auto. exists (lit "embed"). reflexivity.
      - exists "e/"%string, r'. split_and!; auto. exists (lit "e"). reflexivity. }
    apply eleven_inv in H' as (Hlen & Hall & post & ->).
    split_and!; auto. exists m, 47%N, post. split; [|auto].
    rewrite Hm. now rewrite <- app_assoc.
  - apply dots_then_inv in H as (a & b & -> & H).
    unfold v_eleven in H. destruct b as [|c b]; [discriminate|].
    destruct ((c =? 63) || (c =? 38))%N; [|discriminate].
    apply lit_then_inv in H as (b' & -> & H).
    apply eleven_inv in H as (Hlen & Hall & post & ->).
    split_and!; auto. exists (a ++ [c; 118%N]), 61%N, post. split; [|auto].
    change (lit "v=") with [118%N; 61%N]. now rewrite <- app_assoc.
Qed.

(** A match at the head of [s]: one of the two sites, then the identifier,
    at once after [youtu.be/] and after a [/] or a [=] further on after
    [youtube.com/]. *)
Lemma youtube_here_inv (s id : JsString) :
  youtube_here s = Some id ->
  length id = 11%nat /\ forallb is_video_char id = true
  /\ exists site mid post,
       s = site ++ mid ++ id ++ post
       /\ ((site = lit "youtube.com/"
            /\ exists m c, mid = m ++ [c] /\ (c = 47 \/ c = 61)%N)
           \/ (site = lit "youtu.be/" /\ mid = [])).
Proof.
  unfold youtube_here. intros H.
  apply or_else_inv in H as [H|H]; apply lit_then_inv in H as (r & -> & H).
  - apply after_youtube_com_inv in H as (Hlen & Hall & m & c & post & -> & Hc).
    split_and!; auto. exists (lit "youtube.com/"), (m ++ [c]), post.
    split; [now rewrite <- app_assoc | left; eauto].
  - apply eleven_inv in H as (Hlen & Hall & post & ->).
    split_and!; auto. exists (lit "youtu.be/"), [], post. auto.
Qed.

(** X18.  What [extractYouTubeId] returns is taken from the link: eleven
    code units, none of them a double quote, [&], [?], [/] or white space,
    that stand in the link at once after [youtu.be/], or after
    [youtube.com/] and a path or query that ends in [/] or [=]. *)
Theorem extractYouTubeId_sound (url id : JsString) :
  extractYouTubeId url = Some id ->
  length id = 11%nat /\ forallb is_video_char id = true
  /\ exists pre site mid post,
       url = pre ++ site ++ mid ++ id ++ post
       /\ ((site = lit "youtube.com/"
            /\ exists m c, mid = m ++ [c] /\ (c = 47 \/ c = 61)%N)
           \/ (site = lit "youtu.be/" /\ mid = [])).
Proof.
  induction url as [|c rest IH]; cbn [extractYouTubeId].
  - destruct (youtube_here []) as [x|] eqn:Hhere; [|discriminate].
    intros [= ->]. apply youtube_here_inv in Hhere as (Hlen & Hall & site & mid & post & H).
    split_and!; auto. exists [], site, mid, post. exact H.
  - destruct (youtube_here (c :: rest)) as [x|] eqn:Hhere.
    + intros [= ->].
      apply youtube_here_inv in Hhere as (Hlen & Hall & site & mid & post & H).
      split_and!; auto. exists [], site, mid, post. exact H.
    + intros H. destruct (IH H) as (Hlen & Hall & pre & site & mid & post & -> & Hsite).
      split_and!; auto. exists (c :: pre), site, mid, post. auto.
Qed.

Lemma extractYouTubeId_sound_witness :
  extractYouTubeId (lit "https://www.youtube.com/watch?v=dQw4w9WgXcQ&t=42s")
  = Some (lit "dQw4w9WgXcQ")
  /\ length (lit "dQw4w9WgXcQ") = 11%nat.
Proof.
  split; [vm_compute; reflexivity|].
  apply (extractYouTubeId_sound (lit "https://www.youtube.com/watch?v=dQw4w9WgXcQ&t=42s")).
  vm_compute. reflexivity.
Defined.

(** X19.  A link that names neither [youtube.com/] nor [youtu.be/] has no
    identifier: [extractYouTubeId] returns [null]. *)
Theorem extractYouTubeId_needs_site (url : JsString) :
  (forall pre post, url <> pre ++ lit "youtube.com/" ++ post) ->
  (forall pre post, url <> pre ++ lit "youtu.be/" ++ post) ->
  extractYouTubeId url = None.
Proof.
  induction url as [|c rest IH]; intros Hcom Hbe; cbn [extractYouTubeId].
  - destruct (youtube_here []) as [x|] eqn:Hhere; [|reflexivity].
    apply youtube_here_inv in Hhere as (_ & _ & site & mid & post & Hs & [[-> _]|[-> _]]).
    + now destruct (Hcom [] (mid ++ x ++ post)).
    + now destruct (Hbe [] (mid ++ x ++ post)).
  - destruct (youtube_here (c :: rest)) as [x|] eqn:Hhere.
    + apply youtube_here_inv in Hhere as (_ & _ & site & mid & post & Hs & [[-> _]|[-> _]]).
      * now destruct (Hcom [] (mid ++ x ++ post)).
      * now destruct (Hbe [] (mid ++ x ++ post)).
    + apply IH.
      * intros pre post ->. now apply (Hcom (c :: pre) post).
      * intros pre post ->. now apply (Hbe (c :: pre) post).
Qed.

Lemma extractYouTubeId_needs_site_witness : extractYouTubeId (lit "vimeo") = None.
Proof.
  apply (extractYouTubeId_needs_site (lit "vimeo")).
  - intros pre post H. apply (f_equal length) in H.
    rewrite !length_app in H. cbv [lit] in H. simpl in H. lia.
  - intros pre post H. apply (f_equal length) in H.
    rewrite !length_app in H. cbv [lit] in H. simpl in H. lia.
Defined.
